(** * otpl-service-check: the Go core and the legacy Python script

    A shallow embedding of the service check of the repository:
    - [Core]: accumulator.go, check.go and the [Announcement] type of the
      discovery client (the Go rewrite, user agent 2.0.0);
    - [Legacy]: the Python script (user agent 1.1.6) with its re-check of
      the announcements before a critical exit.

    The network is not part of either program.  What a health probe returned
    is handed to the model as a trace: the completed probes in the order in
    which they were delivered (the order in which the goroutines took the
    accumulator's mutex, or in which [imap_unordered] yielded).  Every
    statement about a run quantifies over all such orders.  For the core
    the traces of a run are derived from the loop of [checkInstances] taken
    step by step, goroutine by goroutine ([Core.steps]). *)

From Stdlib Require Import ZArith List String Ascii Lia Permutation Sorted Bool.
From Stdlib Require OrderedTypeEx.
From stdpp Require Import base gmap sets list strings pretty.

Set Warnings "-clear-no-such-hyp".

Open Scope Z_scope.

(** ** Announcements as decoded from the discovery server's JSON *)

(** A metadata value.  Numbers are integers; JSON arrays and objects are
    not represented: the only metadata entry either program reads is the
    server token, the name of a host. *)
Inductive JValue :=
| JString (s : string)
| JNumber (z : Z)
| JBool (b : bool)
| JNull.

#[global] Instance JValue_eq_dec : EqDecision JValue.
Proof. solve_decision. Defined.

Definition JValue_code (v : JValue) : string + Z + bool + unit :=
  match v with
  | JString s => inl (inl (inl s))
  | JNumber z => inl (inl (inr z))
  | JBool b => inl (inr b)
  | JNull => inr tt
  end.

Definition JValue_decode (c : string + Z + bool + unit) : JValue :=
  match c with
  | inl (inl (inl s)) => JString s
  | inl (inl (inr z)) => JNumber z
  | inl (inr b) => JBool b
  | inr _ => JNull
  end.

#[global] Instance JValue_countable : Countable JValue.
Proof.
  refine (inj_countable' JValue_code JValue_decode _).
  intros []; reflexivity.
Defined.

Definition tokenkey : string := "server-token".

Record Announcement := {
  AnnouncementID : string;
  ServiceType : string;
  ServiceURI : string;
  Environment : string;
  Metadata : gmap string JValue
}.

#[global] Instance Announcement_eq_dec : EqDecision Announcement.
Proof. solve_decision. Defined.

Definition nl : string := String "010"%char EmptyString.

(** ** The Go core *)

Module Core.

(** [nagios.Status] is a struct of a label and an exit code, declared by the
    go-nagios library together with four package values.  [StatusOther]
    stands for every value of the struct that is none of the four. *)
Inductive Status :=
| StatusOK
| StatusWarn
| StatusCrit
| StatusUnknown
| StatusOther (Label : string) (ExitCode : Z).

#[global] Instance Status_eq_dec : EqDecision Status.
Proof. solve_decision. Defined.

(** [nagios.PerfData] as built by [nagios.NewPerfData label value unit].
    The value is the [float64] of an [int] that counts elements of a slice;
    it is kept as the integer. *)
Record PerfData := {
  perfLabel : string;
  perfValue : Z;
  perfUnit : string
}.

Record result := {
  status : Status;
  message : string;
  perf : list PerfData
}.

(** The mutex makes [add] atomic, so the accumulator is a value threaded
    through the calls in the order in which they took the lock. *)
Record resultAccumulator := {
  worstStatus : Status;
  results : list result
}.

Definition newAccumulator : resultAccumulator :=
  {| worstStatus := StatusOK; results := [] |}.

Definition statusToOrd (s : Status) : Z :=
  match s with
  | StatusOK => 0
  | StatusUnknown => 1
  | StatusWarn => 2
  | StatusCrit => 3
  | StatusOther _ _ => -1
  end.

Definition worseOf (a b : Status) : Status :=
  if statusToOrd b >? statusToOrd a then b else a.

Definition add (a : resultAccumulator) (r : result) : resultAccumulator :=
  {| worstStatus := worseOf (worstStatus a) (status r);
     results := results a ++ [r] |}.

(** [updateCheck]: the status, the perf data and the messages handed to the
    nagios check (the formatter is applied to the messages by the caller). *)
Definition updateCheck (a : resultAccumulator)
  : Status * list PerfData * list string :=
  (worstStatus a, concat (map perf (results a)), map message (results a)).

Definition serverToken (a : Announcement) : string :=
  match Metadata a !! tokenkey with
  | Some (JString s) => s
  | _ => ""
  end.

Record header := { key : string; value : string }.

Record check := {
  discoveryState : list Announcement;
  service : string;
  endpoint : string;
  skipHealthcheck : bool;
  warn : Z;
  crit : Z;
  headers : list header
}.

(** [response]: the endpoint is the resolved URL as [String()] prints it,
    the duration a [time.Duration] in nanoseconds. *)
Record response := {
  respEndpoint : string;
  contentType : string;
  body : string;
  statusCode : Z;
  duration : Z
}.

(** What [fetchAnnouncement] returned: an error with its text, or a
    response. *)
Inductive fetched :=
| FetchErr (err : string)
| FetchOk (resp : response).

Definition okMsg (cnt : Z) (svc : string) : string :=
  pretty cnt +:+ " instances of " +:+ svc +:+ " found".

Definition notOkMsg (cnt : Z) (svc : string) (least : Z) : string :=
  pretty cnt +:+ " instances of " +:+ svc +:+ " found, expected at least "
  +:+ pretty least.

(** One iteration of the counting loop of [checkQuota] on the pair of the
    [seen] map and [cnt].  A missing key of a Go map reads as [false].
    [cnt] is incremented at most once for each element of a slice, so it
    stays within the range of [int]. *)
Definition quotaStep (st : gmap string bool * Z) (ann : Announcement)
  : gmap string bool * Z :=
  let '(seen, cnt) := st in
  let tok := serverToken ann in
  let ok := default false (seen !! tok) in
  if String.eqb tok "" || (negb (String.eqb tok "") && negb ok)
  then (<[tok := true]> seen, cnt + 1)
  else (seen, cnt).

Definition quotaLoop (anns : list Announcement) (st : gmap string bool * Z)
  : gmap string bool * Z :=
  fold_left quotaStep anns st.

Definition quotaCount (anns : list Announcement) : Z :=
  snd (quotaLoop anns (∅, 0)).

Definition quotaResult (c : check) (anns : list Announcement) : result :=
  let cnt := quotaCount anns in
  let perfs := [ {| perfLabel := "instances"; perfValue := cnt; perfUnit := "" |} ] in
  if (crit c >? 0) && (cnt <? crit c) then
    {| status := StatusCrit; message := notOkMsg cnt (service c) (crit c);
       perf := perfs |}
  else if (warn c >? 0) && (cnt <? warn c) then
    {| status := StatusWarn; message := notOkMsg cnt (service c) (warn c);
       perf := perfs |}
  else
    {| status := StatusOK; message := okMsg cnt (service c); perf := perfs |}.

Definition checkQuota (c : check) (anns : list Announcement)
  (acc : resultAccumulator) : resultAccumulator :=
  add acc (quotaResult c anns).

(** Go's [/] on [int] truncates toward zero. *)
Definition statusFor (code : Z) : Status :=
  let family := Z.quot code 100 in
  if family =? 2 then StatusOK
  else if family =? 4 then StatusWarn
  else StatusCrit.

Definition formatMessage (resp : response) : string :=
  "---" +:+ nl +:+
  "status code: " +:+ pretty (statusCode resp) +:+ nl +:+
  "duration: " +:+ pretty (Z.quot (duration resp) 1000000) +:+ " ms" +:+ nl +:+
  "endpoint: " +:+ respEndpoint resp +:+ nl.

Definition announcementResult (ann : Announcement) (f : fetched) : result :=
  match f with
  | FetchErr err =>
      {| status := StatusWarn;
         message := "failed to fetch announced endpoint " +:+ ServiceURI ann
                    +:+ ": " +:+ err;
         perf := [] |}
  | FetchOk resp =>
      {| status := statusFor (statusCode resp);
         message := formatMessage resp;
         perf := [] |}
  end.

Definition checkAnnouncement (ann : Announcement) (f : fetched)
  (acc : resultAccumulator) : resultAccumulator :=
  add acc (announcementResult ann f).

(** [checkInstances] starts one goroutine per announcement and waits for
    all of them.  [trace] lists the goroutines in the order in which they
    reached [acc.add], each with its announcement and with what its
    [fetchAnnouncement] returned. *)
Definition checkInstances (trace : list (Announcement * fetched))
  (acc : resultAccumulator) : resultAccumulator :=
  fold_left (fun acc p => checkAnnouncement (fst p) (snd p) acc) trace acc.

Definition matching (c : check) : list Announcement :=
  List.filter (fun a => String.eqb (ServiceType a) (service c)) (discoveryState c).

(** A trace belongs to a run when its goroutines are the ones started: one
    for each matching announcement. *)
Definition scheduled (c : check) (trace : list (Announcement * fetched)) : Prop :=
  Permutation (map fst trace) (matching c).

Definition run (c : check) (trace : list (Announcement * fetched))
  (acc : resultAccumulator) : resultAccumulator :=
  let acc1 := checkQuota c (matching c) acc in
  if negb (skipHealthcheck c) then checkInstances trace acc1 else acc1.

(** *** Notions used to state the properties of the core *)

(** The four severities of a check. *)
Definition severity (s : Status) : Prop :=
  match s with
  | StatusOther _ _ => False
  | _ => True
  end.

(** The exit codes with which go-nagios declares the four values (the codes
    of the Nagios plugin interface); [StatusOther] carries its own. *)
Definition exitCode (s : Status) : Z :=
  match s with
  | StatusOK => 0
  | StatusWarn => 1
  | StatusCrit => 2
  | StatusUnknown => 3
  | StatusOther _ c => c
  end.

(** The accumulator after the results [l] have been added in that order. *)
Definition addAll (l : list result) (acc : resultAccumulator)
  : resultAccumulator :=
  fold_left add l acc.

(** The keys that read as [true] in the [seen] map. *)
Definition seenSet (seen : gmap string bool) : gset string :=
  dom (filter (fun kv => kv.2 = true) seen).

(** The counting loop in closed form, in the terms of the code: what
    [serverToken] returns for each announcement.  These are steps of the
    proofs; the dedup rule in the words of the specification is
    [Both.dedupCount]. *)
Definition untokened (a : Announcement) : bool := String.eqb (serverToken a) "".

Definition tokens (anns : list Announcement) : list string :=
  List.filter (fun s => negb (String.eqb s "")) (map serverToken anns).

(** The announcements for which [serverToken] is empty, plus the distinct
    values of [serverToken] among the others. *)
Definition loopCount (anns : list Announcement) : Z :=
  Z.of_nat (length (List.filter untokened anns))
  + Z.of_nat (size (list_to_set (tokens anns) : gset string)).

(** The severity the thresholds describe for a count. *)
Definition quotaSeverity (crit warn count : Z) : Status :=
  if decide (crit > 0 /\ count < crit) then StatusCrit
  else if decide (warn > 0 /\ count < warn) then StatusWarn
  else StatusOK.

(** The severity of a status code by its family. *)
Definition familySeverity (code : Z) : Status :=
  if decide (200 <= code <= 299) then StatusOK
  else if decide (400 <= code <= 499) then StatusWarn
  else StatusCrit.

(** What [a] adds to the count after the announcements [earlier]: 1 when
    [serverToken] is empty or a value not met before, else 0. *)
Definition contribution (earlier : list Announcement) (a : Announcement) : Z :=
  if untokened a then 1
  else if bool_decide (serverToken a ∈ map serverToken earlier) then 0 else 1.

(** The results the goroutines of a trace add. *)
Definition probeResults (trace : list (Announcement * fetched)) : list result :=
  map (fun p => announcementResult (fst p) (snd p)) trace.

(** *** [checkInstances] step by step

    [checkInstances] ranges over the announcements and starts one goroutine
    for each ([wg.Add(1)], [go func]), which gets its announcement as an
    argument; a goroutine runs [checkAnnouncement], which fetches and adds
    its result under the mutex of the accumulator, and calls [wg.Done];
    [wg.Wait] returns when every goroutine started is done.  The state holds the announcements the loop has not reached yet,
    the goroutines started and not yet done, whose number is the counter of
    the WaitGroup, and the accumulator. *)
Record instances := {
  unstarted : list Announcement;
  inflight : list Announcement;
  accum : resultAccumulator
}.

(** What happens next: the loop starts the goroutine of the next
    announcement, or the fetch of the [i]-th goroutine in flight returns
    [f], the goroutine takes the mutex, adds its result and is done.  Which
    of them happens, and which goroutine is next, is up to the scheduler
    and the network. *)
Inductive event :=
| Started
| Finished (i : nat) (f : fetched).

Definition step (s : instances) (e : event) : option instances :=
  match e with
  | Started =>
      match unstarted s with
      | ann :: rest =>
          Some {| unstarted := rest;
                  inflight := inflight s ++ [ann];
                  accum := accum s |}
      | [] => None
      end
  | Finished i f =>
      match inflight s !! i with
      | Some ann =>
          Some {| unstarted := unstarted s;
                  inflight := delete i (inflight s);
                  accum := checkAnnouncement ann f (accum s) |}
      | None => None
      end
  end.

Fixpoint steps (s : instances) (events : list event) : option instances :=
  match events with
  | [] => Some s
  | e :: rest =>
      match step s e with
      | Some s' => steps s' rest
      | None => None
      end
  end.

(** [wg.Wait()] returns: the loop is over and the counter is zero. *)
Definition waited (s : instances) : bool :=
  match unstarted s, inflight s with
  | [], [] => true
  | _, _ => false
  end.

(** [checkInstances] on the events of an execution: the accumulator when
    [wg.Wait] returns, [None] when the events are not those of a complete
    execution. *)
Definition checkInstancesSteps (anns : list Announcement)
  (events : list event) (acc : resultAccumulator) : option resultAccumulator :=
  match steps {| unstarted := anns; inflight := []; accum := acc |} events with
  | Some s => if waited s then Some (accum s) else None
  | None => None
  end.

(** [run] on the events of an execution. *)
Definition runSteps (c : check) (events : list event)
  (acc : resultAccumulator) : option resultAccumulator :=
  let acc1 := checkQuota c (matching c) acc in
  if negb (skipHealthcheck c)
  then checkInstancesSteps (matching c) events acc1
  else Some acc1.

End Core.

(** ** The legacy Python script *)

Module Legacy.

(** Python's [==] on the values [json] decodes: [True == 1] and
    [False == 0], every other pair of values of different types is unequal.
    [py_key] picks one representative for each class of equal values. *)
Definition py_key (v : JValue) : JValue :=
  match v with
  | JBool b => JNumber (Z.b2z b)
  | _ => v
  end.

Definition py_eqb (v w : JValue) : bool :=
  bool_decide (py_key v = py_key w).

(** [==] on two announcement dicts: the same keys with equal values.  Every
    announcement is taken to carry the five keys of the record. *)
Definition ann_eqb (a b : Announcement) : bool :=
  String.eqb (AnnouncementID a) (AnnouncementID b)
  && String.eqb (ServiceType a) (ServiceType b)
  && String.eqb (ServiceURI a) (ServiceURI b)
  && String.eqb (Environment a) (Environment b)
  && bool_decide (py_key <$> Metadata a = py_key <$> Metadata b).

(** [ann in announcements] *)
Definition ann_in (a : Announcement) (l : list Announcement) : bool :=
  existsb (ann_eqb a) l.

(** The parsed arguments the run reads.  [timeout_3f] is the timeout as
    ["%.3f"] prints it. *)
Record Args := {
  service : string;
  do_healthcheck : bool;
  timeout_3f : string;
  critical_fewer : Z;
  warn_fewer : Z
}.

Record Result := {
  code : Z;
  message : string;
  announcement : option Announcement
}.

(** [Result.codemap]; the constructor is only ever called with 0, 1 or 2
    (any other key is a [KeyError]). *)
Definition codemap (c : Z) : string :=
  if c =? 2 then "critical" else if c =? 1 then "warning" else "ok".

Definition Result_init (c : Z) (topic msg : string)
  (ann : option Announcement) : Result :=
  {| code := c;
     message := topic +:+ " " +:+ codemap c +:+ ": " +:+ msg;
     announcement := ann |}.

Definition create_with_uri (c : Z) (topic uri msg : string)
  (ann : option Announcement) : Result :=
  Result_init c topic (msg +:+ nl +:+ "check URI " +:+ uri) ann.

(** The exceptions [handle_response] tells apart, in the order of its
    [isinstance] tests. *)
Inductive Exc :=
| ConnectTimeout
| ReadTimeout
| ConnectionError
| OtherException.

(** What [EndpointChecker.check_endpoint] returned.  [parsed] is
    [Parser.parse(content_type, body)], [duration_3f] the duration as
    ["%.3f"] prints it, [tb] the formatted traceback; [status], [body],
    [parsed] and [duration_3f] are read only when [exc] is [None]. *)
Record Response := {
  resp_status : Z;
  resp_body : string;
  parsed : string;
  duration_3f : string;
  uri : string;
  resp_announcement : Announcement;
  exc : option Exc;
  tb : string
}.

(** An answer of the discovery server to [get_announcements]: an exception
    with its traceback, or the backend header and the decoded state. *)
Inductive Discovery :=
| DiscoveryRaised (traceback : string)
| DiscoveryState (backend : option string) (state : list Announcement).

(** [[a for a in state if a["serviceType"] == self.args.service]] *)
Definition matching (args : Args) (state : list Announcement)
  : list Announcement :=
  List.filter (fun a => String.eqb (ServiceType a) (service args)) state.

Definition get_announcements (args : Args) (d : Discovery)
  : string + option string * list Announcement :=
  match d with
  | DiscoveryRaised t => inl t
  | DiscoveryState backend state => inr (backend, matching args state)
  end.

(** ["%s" % backend] *)
Definition str_backend (backend : option string) : string :=
  match backend with
  | Some b => b
  | None => "None"
  end.

(** One iteration of the loop of [count_announcements] on the pair of the
    [seen] set and [count]; [metadata] of an announcement without one is the
    empty dict. *)
Definition count_step (st : list JValue * Z) (ann : Announcement)
  : list JValue * Z :=
  let '(seen, count) := st in
  match Metadata ann !! tokenkey with
  | None => (seen, count + 1)
  | Some token =>
      if negb (existsb (py_eqb token) seen)
      then (token :: seen, count + 1)
      else (seen, count)
  end.

Definition count_announcements (announcements : list Announcement) : Z :=
  snd (fold_left count_step announcements ([], 0)).

Definition make_announcement_result (args : Args) (c count : Z)
  (backend : option string) : Result :=
  Result_init c "announcements"
    (pretty count +:+ nl +:+ "crit./warn thresh.: "
     +:+ pretty (critical_fewer args) +:+ "/" +:+ pretty (warn_fewer args)
     +:+ nl +:+ "disco backend: " +:+ str_backend backend)
    None.

(** [make_response_result], threading [self.response_data_seen]. *)
Definition make_response_result (seen : gset string) (c : Z) (r : Response)
  : Result * gset string :=
  let msg := pretty (resp_status r) +:+ " from endpoint" in
  if negb (c =? 0) then
    if bool_decide (resp_body r ∈ seen) then
      (Result_init c "health" (" <duplicate '" +:+ uri r +:+ "'>")
         (Some (resp_announcement r)), seen)
    else
      (create_with_uri c "health" (uri r)
         (msg +:+ nl +:+ parsed r +:+ nl +:+ "duration " +:+ duration_3f r +:+ "s")
         (Some (resp_announcement r)),
       {[ resp_body r ]} ∪ seen)
  else
    (create_with_uri c "health" (uri r)
       (msg +:+ nl +:+ "duration " +:+ duration_3f r +:+ "s")
       (Some (resp_announcement r)),
     seen).

Definition make_timeout_result (args : Args) (u type : string)
  (ann : Announcement) : Result :=
  create_with_uri 2 (type +:+ " timeout") u
    ("thresh. " +:+ timeout_3f args) (Some ann).

(** Python's [//] rounds toward minus infinity. *)
Definition handle_response (args : Args) (seen : gset string) (r : Response)
  : Result * gset string :=
  match exc r with
  | Some ConnectTimeout =>
      (make_timeout_result args (uri r) "connect" (resp_announcement r), seen)
  | Some ReadTimeout =>
      (make_timeout_result args (uri r) "read" (resp_announcement r), seen)
  | Some ConnectionError =>
      (create_with_uri 2 "health" (uri r) "connection refused"
         (Some (resp_announcement r)), seen)
  | Some OtherException =>
      (create_with_uri 2 "health" (uri r)
         ("unhandled exception" +:+ nl +:+ tb r)
         (Some (resp_announcement r)), seen)
  | None =>
      let family := resp_status r / 100 in
      let result := if family =? 2 then 0 else if family =? 4 then 1 else 2 in
      make_response_result seen result r
  end.

(** The loop over [checks]: the responses in the order in which
    [imap_unordered] yields them. *)
Fixpoint handle_all (args : Args) (seen : gset string) (checks : list Response)
  : list Result * gset string :=
  match checks with
  | [] => ([], seen)
  | chk :: rest =>
      let '(r, seen1) := handle_response args seen chk in
      let '(rs, seen2) := handle_all args seen1 rest in
      (r :: rs, seen2)
  end.

(** The sort key [(r.code, r.message)] under Python's [<] on tuples. *)
Definition key_ltb (a b : Result) : bool :=
  (code a <? code b)
  || ((code a =? code b) && String.ltb (message a) (message b)).

(** [results.sort(reverse=True, key=...)] is a stable sort, largest key
    first: elements with equal keys keep their order.  That fixes the
    outcome, which is computed here by insertion. *)
Fixpoint sort_insert (x : Result) (l : list Result) : list Result :=
  match l with
  | [] => [x]
  | y :: l' => if key_ltb x y then y :: sort_insert x l' else x :: y :: l'
  end.

Definition sort_results (results : list Result) : list Result :=
  fold_right sort_insert [] results.

(** The loop of the re-check over the sorted results, on the results and
    the [downgraded] counter.  It stops at the first result that is not
    critical; a result is changed where it stands in the list. *)
Fixpoint downgrade_loop (announcements : list Announcement)
  (results : list Result) (downgraded : Z) : list Result * Z :=
  match results with
  | [] => ([], downgraded)
  | res :: rest =>
      if negb (code res =? 2) then (res :: rest, downgraded)
      else
        match announcement res with
        | None =>
            let '(rest', d) := downgrade_loop announcements rest downgraded in
            (res :: rest', d)
        | Some a =>
            if negb (ann_in a announcements) then
              let res' := {| code := 1;
                             message := message res +:+ nl +:+ "(downgraded)";
                             announcement := announcement res |} in
              let '(rest', d) :=
                downgrade_loop announcements rest (downgraded + 1) in
              (res' :: rest', d)
            else
              let '(rest', d) := downgrade_loop announcements rest downgraded in
              (res :: rest', d)
        end
  end.

(** The result appended when the second [get_announcements] raises. *)
Definition recheck_failure (traceback : string) : Result :=
  Result_init 1 "announcements" ("failed to re-check" +:+ nl +:+ traceback) None.

(** The result appended when results were downgraded. *)
Definition downgrade_summary (downgraded : Z) (backend : option string)
  : Result :=
  let msg := "downgraded " +:+ pretty downgraded +:+ " critical result" in
  let msg := if downgraded >? 1 then msg +:+ "s" else msg in
  let msg := msg +:+ nl +:+ "differing disco backend: "
             +:+ str_backend backend in
  Result_init 1 "results" msg None.

(** The body of [if results[0].code == 2 and self.args.do_healthcheck]. *)
Definition recheck (args : Args) (second : Discovery) (results : list Result)
  : list Result :=
  match get_announcements args second with
  | inl traceback => results ++ [recheck_failure traceback]
  | inr (backend, announcements) =>
      let '(results', downgraded) := downgrade_loop announcements results 0 in
      if negb (downgraded =? 0) then
        sort_results (results' ++ [downgrade_summary downgraded backend])
      else results'
  end.

(** [results[0].code]; on an empty list the [IndexError] reaches the handler
    of the script, which exits with 3. *)
Definition first_code (results : list Result) : Z :=
  match results with
  | r :: _ => code r
  | [] => 3
  end.

(** The quota result: the first result appended by [run]. *)
Definition quota_result (args : Args) (backend : option string)
  (announcements : list Announcement) : Result :=
  let count := count_announcements announcements in
  if count <? critical_fewer args then
    make_announcement_result args 2 count backend
  else if count <? warn_fewer args then
    make_announcement_result args 1 count backend
  else make_announcement_result args 0 count backend.

(** The results before the re-check: the quota result, then one result for
    each response, sorted. *)
Definition collect (args : Args) (backend : option string)
  (announcements : list Announcement) (checks : list Response) : list Result :=
  let quota := quota_result args backend announcements in
  let results :=
    if do_healthcheck args then quota :: fst (handle_all args ∅ checks)
    else [quota] in
  sort_results results.

(** [imap_unordered] yields one response for each announcement handed to
    the pool. *)
Definition scheduled (announcements : list Announcement)
  (checks : list Response) : Prop :=
  Permutation (map resp_announcement checks) announcements.

(** [Main.run]: the exit code and the results whose messages are printed.
    [first] and [second] are the answers of the discovery server to the two
    calls of [get_announcements]. *)
Definition run (args : Args) (first : Discovery) (checks : list Response)
  (second : Discovery) : Z * list Result :=
  match get_announcements args first with
  | inl _ => (3, [])
  | inr (backend, announcements) =>
      let results := collect args backend announcements checks in
      let results :=
        if (first_code results =? 2) && do_healthcheck args
        then recheck args second results
        else results in
      (first_code results, results)
  end.

(** *** Notions used to state the properties of the legacy script *)

(** The exit code of a severity: 0 OK, 1 WARN, 2 CRIT. *)
Definition OK : Z := 0.
Definition WARN : Z := 1.
Definition CRIT : Z := 2.

(** The values in the [seen] set, each by its representative. *)
Definition seenKeys (seen : list JValue) : gset JValue :=
  list_to_set (map py_key seen).

Definition untokened (a : Announcement) : bool :=
  bool_decide (Metadata a !! tokenkey = None).

Definition tokens (anns : list Announcement) : list JValue :=
  omap (fun a => Metadata a !! tokenkey) anns.

(** The counting loop in closed form: the announcements whose metadata has
    no token key, plus the values under it up to Python's [==]. *)
Definition distinctCount (anns : list Announcement) : Z :=
  Z.of_nat (length (List.filter untokened anns))
  + Z.of_nat (size (seenKeys (tokens anns))).

(** A critical result whose announcement is missing from [fresh]. *)
Definition stale (fresh : list Announcement) (r : Result) : bool :=
  (code r =? 2)
  && match announcement r with
     | Some a => negb (ann_in a fresh)
     | None => false
     end.

(** The result as the re-check leaves it when it is stale. *)
Definition downgrade (r : Result) : Result :=
  {| code := 1;
     message := message r +:+ nl +:+ "(downgraded)";
     announcement := announcement r |}.

Definition recheck_result (fresh : list Announcement) (r : Result) : Result :=
  if stale fresh r then downgrade r else r.

(** What [a] adds to the count after the announcements [earlier]: 1 when
    its metadata has no token key or a value not met before, else 0. *)
Definition contribution (earlier : list Announcement) (a : Announcement) : Z :=
  match Metadata a !! tokenkey with
  | None => 1
  | Some token => if existsb (py_eqb token) (tokens earlier) then 0 else 1
  end.

(** Sorted by code, worst first. *)
Definition code_sorted (l : list Result) : Prop :=
  StronglySorted (fun a b => code b <= code a) l.

(** The severity of a response: critical for an exception, else by the
    family of the status. *)
Definition response_code (r : Response) : Z :=
  match exc r with
  | Some _ => CRIT
  | None =>
      if decide (200 <= resp_status r <= 299) then OK
      else if decide (400 <= resp_status r <= 499) then WARN
      else CRIT
  end.

(** The results of a run before they are sorted. *)
Definition gathered (args : Args) (backend : option string)
  (announcements : list Announcement) (checks : list Response) : list Result :=
  quota_result args backend announcements
  :: (if do_healthcheck args then fst (handle_all args ∅ checks) else []).

End Legacy.

(** ** The two programs side by side *)

Module Both.

(** What the endpoint of an announcement does when probed: the request
    fails with an exception, or is answered with a status. *)
Inductive Answer :=
| Failed (e : Legacy.Exc)
| Answered (status : Z).

(** The two programs are started with the same service, thresholds and
    healthcheck switch. *)
Definition same_config (c : Core.check) (args : Legacy.Args) : Prop :=
  Core.service c = Legacy.service args
  /\ Core.skipHealthcheck c = negb (Legacy.do_healthcheck args)
  /\ Core.warn c = Legacy.warn_fewer args
  /\ Core.crit c = Legacy.critical_fewer args.

(** A goroutine of the core saw the answer of its endpoint. *)
Definition core_agrees (answer : Announcement -> Answer)
  (p : Announcement * Core.fetched) : Prop :=
  match answer (fst p), snd p with
  | Failed _, Core.FetchErr _ => True
  | Answered s, Core.FetchOk resp => Core.statusCode resp = s
  | _, _ => False
  end.

(** A worker of the legacy pool saw the answer of its endpoint. *)
Definition legacy_agrees (answer : Announcement -> Answer)
  (r : Legacy.Response) : Prop :=
  match answer (Legacy.resp_announcement r) with
  | Failed e => Legacy.exc r = Some e
  | Answered s => Legacy.exc r = None /\ Legacy.resp_status r = s
  end.

(** Both programs run on the same discovery state and the same answers. *)
Definition same_input (c : Core.check) (args : Legacy.Args)
  (answer : Announcement -> Answer)
  (goroutines : list (Announcement * Core.fetched))
  (checks : list Legacy.Response) : Prop :=
  same_config c args
  /\ Core.scheduled c goroutines
  /\ Legacy.scheduled (Core.matching c) checks
  /\ Forall (core_agrees answer) goroutines
  /\ Forall (legacy_agrees answer) checks.

(** The same final severity, and the same severities among the outcomes. *)
Definition same_verdict (c : Core.check) (args : Legacy.Args)
  (backend : option string)
  (goroutines : list (Announcement * Core.fetched))
  (checks : list Legacy.Response) (second : Legacy.Discovery) : Prop :=
  let acc := Core.run c goroutines Core.newAccumulator in
  let out := Legacy.run args
               (Legacy.DiscoveryState backend (Core.discoveryState c))
               checks second in
  fst out = Core.exitCode (Core.worstStatus acc)
  /\ Permutation (map Legacy.code (snd out))
                 (map (fun r => Core.exitCode (Core.status r)) (Core.results acc)).

(** The legacy script as a duplicate of the core. *)
Definition behavioural_duplicate : Prop :=
  forall c args backend answer goroutines checks second,
    same_input c args answer goroutines checks ->
    same_verdict c args backend goroutines checks second.

(** The dedup token in the words of the specification: the metadata field
    under the fixed key, which may be absent. *)
Definition dedupToken (a : Announcement) : option JValue :=
  Metadata a !! tokenkey.

(** The count of the dedup rule in the words of the specification, for a
    reading [token] of which token an announcement has: the announcements
    with no token, plus the distinct tokens among the rest. *)
Definition dedupCount `{Countable T} (token : Announcement -> option T)
  (anns : list Announcement) : Z :=
  Z.of_nat (length (List.filter (fun a => bool_decide (token a = None)) anns))
  + Z.of_nat (size (list_to_set (omap token anns) : gset T)).

(** What the rule lets [a] add after the announcements [earlier]: 1 with no
    token or on the first occurrence of its token, else 0. *)
Definition dedupStep `{Countable T} (token : Announcement -> option T)
  (earlier : list Announcement) (a : Announcement) : Z :=
  match token a with
  | None => 1
  | Some t => if bool_decide (t ∈ omap token earlier) then 0 else 1
  end.

(** The claim on the count as it is stated: both programs count by the
    dedup token. *)
Definition counts_by_dedup_token : Prop :=
  forall anns,
    Core.quotaCount anns = dedupCount dedupToken anns
    /\ Legacy.count_announcements anns = dedupCount dedupToken anns.

(** The token of an announcement for the core: the metadata field when it
    is a string that is not empty. *)
Definition coreToken (a : Announcement) : option string :=
  match Metadata a !! tokenkey with
  | Some (JString s) => if String.eqb s "" then None else Some s
  | _ => None
  end.

(** The token of an announcement for the legacy script: the metadata field
    whatever its value, two values being the same token when Python's [==]
    holds of them. *)
Definition legacyToken (a : Announcement) : option JValue :=
  Legacy.py_key <$> Metadata a !! tokenkey.

(** The server token is missing or a string that is not empty. *)
Definition plain_token (a : Announcement) : bool :=
  match Metadata a !! tokenkey with
  | None => true
  | Some (JString s) => negb (String.eqb s "")
  | Some _ => false
  end.

(** The second answer of the discovery server lists every announcement of
    [anns]. *)
Definition still_listed (args : Legacy.Args) (second : Legacy.Discovery)
  (anns : list Announcement) : Prop :=
  match Legacy.get_announcements args second with
  | inr (_, fresh) => forall a, In a anns -> Legacy.ann_in a fresh = true
  | inl _ => False
  end.

(** The transport failures of a probe all end as a warning. *)
Definition transport_failure_warns : Prop :=
  (forall ann err,
     Core.status (Core.announcementResult ann (Core.FetchErr err))
     = Core.StatusWarn)
  /\ (forall args seen r e,
        Legacy.exc r = Some e ->
        Legacy.code (fst (Legacy.handle_response args seen r)) = Legacy.WARN).

(** The worst of a list of exit codes. *)
Definition worst_code (codes : list Z) : Z := fold_right Z.max 0 codes.

(** The statuses the core gives to its results. *)
Definition produced (s : Core.Status) : Prop :=
  s = Core.StatusOK \/ s = Core.StatusWarn \/ s = Core.StatusCrit.

(** The code of the result of probing an announcement with a given
    answer. *)
Definition answer_code (answer : Announcement -> Answer) (a : Announcement) : Z :=
  match answer a with
  | Failed _ => 2
  | Answered s => Core.exitCode (Core.familySeverity s)
  end.

End Both.

(** ** Inputs on which the statements are tried *)

Module Examples.

Definition ann (id svc : string) (token : option JValue) : Announcement :=
  {| AnnouncementID := id;
     ServiceType := svc;
     ServiceURI := "http://" +:+ id +:+ ".example.com/";
     Environment := "prod";
     Metadata := match token with
                 | Some t => {[ tokenkey := t ]}
                 | None => ∅
                 end |}.

Definition foo1 : Announcement := ann "foo1" "foo" (Some (JString "a")).
Definition foo2 : Announcement := ann "foo2" "foo" (Some (JString "a")).
Definition foo3 : Announcement := ann "foo3" "foo" None.
Definition foo4 : Announcement := ann "foo4" "foo" (Some (JNumber 7)).
Definition bar1 : Announcement := ann "bar1" "bar" None.

Definition config (state : list Announcement) (warn crit : Z) : Core.check :=
  {| Core.discoveryState := state;
     Core.service := "foo";
     Core.endpoint := "health";
     Core.skipHealthcheck := false;
     Core.warn := warn;
     Core.crit := crit;
     Core.headers := [] |}.

Definition args (warn crit : Z) : Legacy.Args :=
  {| Legacy.service := "foo";
     Legacy.do_healthcheck := true;
     Legacy.timeout_3f := "5.000";
     Legacy.critical_fewer := crit;
     Legacy.warn_fewer := warn |}.

Definition answered (a : Announcement) (status : Z) : Core.fetched :=
  Core.FetchOk {| Core.respEndpoint := ServiceURI a +:+ "health";
                  Core.contentType := "text/plain";
                  Core.body := "";
                  Core.statusCode := status;
                  Core.duration := 12000000 |}.

Definition response (a : Announcement) (status : Z) : Legacy.Response :=
  {| Legacy.resp_status := status;
     Legacy.resp_body := "";
     Legacy.parsed := "";
     Legacy.duration_3f := "0.012";
     Legacy.uri := ServiceURI a +:+ "health";
     Legacy.resp_announcement := a;
     Legacy.exc := None;
     Legacy.tb := "" |}.

Definition refused (a : Announcement) : Legacy.Response :=
  {| Legacy.resp_status := 0;
     Legacy.resp_body := "";
     Legacy.parsed := "";
     Legacy.duration_3f := "";
     Legacy.uri := ServiceURI a +:+ "health";
     Legacy.resp_announcement := a;
     Legacy.exc := Some Legacy.ConnectionError;
     Legacy.tb := "" |}.

Definition result_of (s : Core.Status) : Core.result :=
  {| Core.status := s; Core.message := ""; Core.perf := [] |}.

(** The results added by the tests of the accumulator. *)
Definition added : list Core.result :=
  map result_of [Core.StatusUnknown; Core.StatusOK; Core.StatusWarn;
                 Core.StatusOK; Core.StatusCrit].

Definition foo_bar : list Core.result :=
  [ {| Core.status := Core.StatusCrit; Core.message := "foo"; Core.perf := [] |};
    {| Core.status := Core.StatusWarn; Core.message := "bar"; Core.perf := [] |} ].

(** Three announcements of which two match the service, and the goroutines
    of a run on them. *)
Definition state3 : list Announcement := [foo1; bar1; foo3].

Definition goroutines3 : list (Announcement * Core.fetched) :=
  [(foo3, Core.FetchErr "connection refused"); (foo1, answered foo1 200)].

Definition goroutines503 : list (Announcement * Core.fetched) :=
  [(foo3, answered foo3 503); (foo1, answered foo1 200)].

Definition checks503 : list Legacy.Response :=
  [response foo1 200; response foo3 503].

Definition answers503 (a : Announcement) : Both.Answer :=
  Both.Answered (if String.eqb (AnnouncementID a) "foo3" then 503 else 200).

(** Two announcements with an empty string as token. *)
Definition empty1 : Announcement := ann "empty1" "foo" (Some (JString "")).
Definition empty2 : Announcement := ann "empty2" "foo" (Some (JString "")).

End Examples.

(** ** Further notions for the properties of the two runs *)

Module More.

(** A goroutine whose fetch was answered with a status of the given
    severity. *)
Definition answered_as (s : Core.Status) (p : Announcement * Core.fetched)
  : Prop :=
  match snd p with
  | Core.FetchOk resp => Core.familySeverity (Core.statusCode resp) = s
  | Core.FetchErr _ => False
  end.

(** The perf data of a run: the count of the instances. *)
Definition instances (count : Z) : Core.PerfData :=
  {| Core.perfLabel := "instances"; Core.perfValue := count;
     Core.perfUnit := "" |}.

(** The responses whose body the legacy script records: those answered
    with a status outside 2xx. *)
Definition recorded (r : Legacy.Response) : bool :=
  match Legacy.exc r with
  | Some _ => false
  | None => negb (Legacy.resp_status r / 100 =? 2)
  end.

Definition bodies (checks : list Legacy.Response) : gset string :=
  list_to_set (map Legacy.resp_body (List.filter recorded checks)).

(** Sorted by the key of the sort, largest first: no result is followed by
    one with a larger key. *)
Definition key_sorted (l : list Legacy.Result) : Prop :=
  StronglySorted (fun a b => Legacy.key_ltb a b = false) l.

(** The results with the key of [k]. *)
Definition same_key (k r : Legacy.Result) : bool :=
  (Legacy.code r =? Legacy.code k)
  && String.eqb (Legacy.message r) (Legacy.message k).

End More.

(** ** The command line of the Go program *)

Module Cli.

(** [strings.Contains s substr]: [strings.Index s substr >= 0]. *)
Definition Contains (s substr : string) : bool :=
  match String.index 0 substr s with
  | Some _ => true
  | None => false
  end.

(** [strings.SplitN s sep 2] for a separator that is not empty: the string
    itself when it does not hold the separator, else what stands before and
    what stands after its first occurrence. *)
Definition SplitN2 (s sep : string) : list string :=
  match String.index 0 sep s with
  | None => [s]
  | Some m =>
      [ String.substring 0 m s;
        String.substring (m + String.length sep)
          (String.length s - (m + String.length sep)) s ]
  end.

(** The white space of [unicode.IsSpace] in UTF-8: the six ASCII bytes,
    U+0085 and U+00A0 in two bytes, and U+1680, U+2000 to U+200A, U+2028,
    U+2029, U+202F, U+205F and U+3000 in three. *)
Definition asciiSpace (c : ascii) : bool :=
  let n := N_of_ascii c in
  ((9 <=? n) && (n <=? 13) || (n =? 32))%N.

Definition space2 (c1 c2 : ascii) : bool :=
  let n1 := N_of_ascii c1 in
  let n2 := N_of_ascii c2 in
  ((n1 =? 194) && ((n2 =? 133) || (n2 =? 160)))%N.

Definition space3 (c1 c2 c3 : ascii) : bool :=
  let n1 := N_of_ascii c1 in
  let n2 := N_of_ascii c2 in
  let n3 := N_of_ascii c3 in
  ((n1 =? 225) && (n2 =? 154) && (n3 =? 128)
   || (n1 =? 226) && (n2 =? 128)
      && ((128 <=? n3) && (n3 <=? 138) || (n3 =? 168) || (n3 =? 169)
          || (n3 =? 175))
   || (n1 =? 226) && (n2 =? 129) && (n3 =? 159)
   || (n1 =? 227) && (n2 =? 128) && (n3 =? 128))%N.

(** The bytes of [l] after its leading white space. *)
Fixpoint trimLeft (l : list ascii) : list ascii :=
  match l with
  | c1 :: l1 =>
      if asciiSpace c1 then trimLeft l1
      else
        match l1 with
        | c2 :: l2 =>
            if space2 c1 c2 then trimLeft l2
            else
              match l2 with
              | c3 :: l3 => if space3 c1 c2 c3 then trimLeft l3 else l
              | [] => l
              end
        | [] => l
        end
  | [] => []
  end.

(** The same from the end, on the reversed bytes. *)
Fixpoint trimLeftRev (l : list ascii) : list ascii :=
  match l with
  | c1 :: l1 =>
      if asciiSpace c1 then trimLeftRev l1
      else
        match l1 with
        | c2 :: l2 =>
            if space2 c2 c1 then trimLeftRev l2
            else
              match l2 with
              | c3 :: l3 => if space3 c3 c2 c1 then trimLeftRev l3 else l
              | [] => l
              end
        | [] => l
        end
  | [] => []
  end.

(** [strings.TrimSpace]: without the leading and the trailing white
    space. *)
Definition TrimSpace (s : string) : string :=
  string_of_list_ascii
    (rev (trimLeftRev (rev (trimLeft (list_ascii_of_string s))))).

(** The ways a Go function ends here: with its value, with an error, or
    in a panic. *)
Inductive outcome (A : Type) :=
| Ok (a : A)
| Error (msg : string)
| Panic.

Arguments Ok {A} a.
Arguments Error {A} msg.
Arguments Panic {A}.

(** The loop of [parseHeaders] on the headers parsed so far.  [parts[1]]
    panics when [SplitN] returned one part. *)
Fixpoint parseLoop (hs : list string) (hds : list Core.header)
  : outcome (list Core.header) :=
  match hs with
  | [] => Ok hds
  | h :: rest =>
      if negb (Contains h ":") then Error ("invalid header: " +:+ h)
      else
        match SplitN2 h ":" with
        | part0 :: part1 :: _ =>
            parseLoop rest
              (hds ++ [ {| Core.key := TrimSpace part0;
                           Core.value := TrimSpace part1 |} ])
        | _ => Panic
        end
  end.

Definition parseHeaders (hs : list string) : outcome (list Core.header) :=
  parseLoop hs [].

(** The flags as [pflag] parsed them. *)
Record flags := {
  discovery : string;
  service : string;
  endpoint : string;
  noHealthcheck : bool;
  timeout : Z;
  critFewer : Z;
  warnFewer : Z;
  header : list string
}.

(** How the checks of [main] on the flags end: in [usageErrorAndExit] with
    the exit code, the help switch and the message, in a panic, or with the
    thresholds and the headers the check is built from. *)
Inductive started :=
| Usage (code : Z) (showHelp : bool) (msg : string)
| Crashed
| Configured (crit warn : Z) (hds : list Core.header).

Definition configure (f : flags) : started :=
  let unknown := Core.exitCode Core.StatusUnknown in
  if String.eqb (discovery f) "" then
    Usage unknown true "discovery name is required"
  else if String.eqb (service f) "" then
    Usage unknown true "service is required"
  else if timeout f <=? 0 then
    Usage unknown false "timeout must be greater than zero"
  else
    let crit := if critFewer f <? 0 then 0 else critFewer f in
    let warn := if warnFewer f <? 0 then 0 else warnFewer f in
    if warn <? crit then Usage unknown false "warn must be greater than crit"
    else
      match parseHeaders (header f) with
      | Ok hds => Configured crit warn hds
      | Error err =>
          Usage unknown false ("failed to parse headers: " +:+ err)
      | Panic => Crashed
      end.

(** A header as it is written on the command line, and the headers that
    are written back as they were parsed: no colon in the key, no white
    space around the key and the value. *)
Definition render (h : Core.header) : string :=
  Core.key h +:+ ": " +:+ Core.value h.

Definition plain (h : Core.header) : Prop :=
  Contains (Core.key h) ":" = false
  /\ TrimSpace (Core.key h) = Core.key h
  /\ TrimSpace (Core.value h) = Core.value h.

End Cli.

(** ** The parsers and the header type of the legacy script *)

Module Parsers.

(** A [str] of Python 3: the list of its code points. *)
Definition text : Type := list N.

Definition chars (s : string) : text :=
  map N_of_ascii (list_ascii_of_string s).

(** [t[:limit]]: a negative limit counts from the end. *)
Definition upto (limit : Z) (t : text) : text :=
  if limit <? 0 then firstn (Z.to_nat (Z.of_nat (length t) + limit)) t
  else firstn (Z.to_nat limit) t.

(** [LimitedParser(limit).parse(text)] *)
Definition LimitedParser_parse (limit : Z) (t : text) : text :=
  if Z.of_nat (length t) >? limit then upto limit t ++ chars "..." else t.

(** [HtmlParser().parse(text)] *)
Definition HtmlParser_parse (t : text) : text := chars "html response elided".

(** [DefaultParser = LimitedParser], built with its default limit. *)
Definition DefaultParser_parse (t : text) : text := LimitedParser_parse 128 t.

Inductive parsercls :=
| LimitedParser
| HtmlParser
| JsonParser.

(** [Parser.parsers], in the order in which the entries are added. *)
Definition parsers : list (text * parsercls) :=
  [ (chars "text/plain", LimitedParser);
    (chars "text/html", HtmlParser);
    (chars "application/json", JsonParser) ].

(** [t.startswith(prefix)] *)
Fixpoint startswith (t prefix : text) : bool :=
  match prefix, t with
  | [], _ => true
  | p :: prefix', c :: t' => (c =? p)%N && startswith t' prefix'
  | _ :: _, [] => false
  end.

Section Library.

(** [str.lower], and [json.loads] and [json.dumps(data, indent=2)] on the
    decoded values [J]; [loads] is [None] for a [ValueError]. *)
Variable lower : text -> text.
Variable J : Type.
Variable loads : text -> option J.
Variable dumps : J -> text.

(** [JsonParser().parse(text)], with [JsonParser.limit = 1024]. *)
Definition JsonParser_parse (t : text) : text :=
  match loads t with
  | None => DefaultParser_parse t
  | Some data => LimitedParser_parse 1024 (dumps data)
  end.

(** [parsercls().parse(text)] *)
Definition parse_with (cls : parsercls) (t : text) : text :=
  match cls with
  | LimitedParser => LimitedParser_parse 128 t
  | HtmlParser => HtmlParser_parse t
  | JsonParser => JsonParser_parse t
  end.

(** The loop of [Parser.parse] over the entries [ps] of the dict. *)
Definition parse_among (ps : list (text * parsercls))
  (contenttype : option text) (t : text) : text :=
  match contenttype with
  | Some ct =>
      match List.find (fun p => startswith (lower ct) (fst p)) ps with
      | Some (_, cls) => parse_with cls t
      | None => DefaultParser_parse t
      end
  | None => DefaultParser_parse t
  end.

(** [Parser.parse(contenttype, text)] *)
Definition Parser_parse (contenttype : option text) (t : text) : text :=
  parse_among parsers contenttype t.

End Library.

(** The characters [str.strip] removes: those [str.isspace] holds for. *)
Definition isspace (c : N) : bool :=
  ((9 <=? c) && (c <=? 13) || (28 <=? c) && (c <=? 32)
   || (c =? 133) || (c =? 160) || (c =? 5760)
   || (8192 <=? c) && (c <=? 8202) || (c =? 8232) || (c =? 8233)
   || (c =? 8239) || (c =? 8287) || (c =? 12288))%N.

(** [t.lstrip()], [t.rstrip()] and [t.strip()] *)
Fixpoint lstrip (t : text) : text :=
  match t with
  | c :: t' => if isspace c then lstrip t' else t
  | [] => []
  end.

Definition rstrip (t : text) : text := rev (lstrip (rev t)).

Definition strip (t : text) : text := rstrip (lstrip t).

(** [":" in val] and [val.split(":", 1)] *)
Definition has_colon (val : text) : bool := existsb (N.eqb 58) val.

Fixpoint split_colon (val : text) : list text :=
  match val with
  | [] => [[]]
  | c :: val' =>
      if (c =? 58)%N then [[]; val']
      else
        match split_colon val' with
        | name :: rest => (c :: name) :: rest
        | [] => []
        end
  end.

(** How a Python function ends here: it returns, or it raises. *)
Inductive raised (A : Type) :=
| Returned (a : A)
| Raised (exception : string) (msg : text).

Arguments Returned {A} a.
Arguments Raised {A} exception msg.

(** [http_header(val)]; unpacking anything but two parts is a
    [ValueError]. *)
Definition http_header (val : text) : raised (text * text) :=
  if negb (has_colon val) then
    Raised "ArgumentTypeError" (chars "invalid header format: " ++ val)
  else
    match split_colon val with
    | [name; value] => Returned (strip name, lstrip value)
    | _ => Raised "ValueError" []
    end.

(** [dict(pairs)]: a later pair replaces an earlier one with its key. *)
Definition dict (pairs : list (text * text)) : gmap text text :=
  fold_left (fun d p => <[fst p := snd p]> d) pairs ∅.

Definition useragent : text := chars "otpl-service-check/1.1.6".

(** The headers [EndpointChecker.check_endpoint] hands to [requests.get]:
    the user agent, updated with the headers of the command line. *)
Definition request_headers (service_headers : gmap text text)
  : gmap text text :=
  service_headers ∪ {[ chars "User-Agent" := useragent ]}.

End Parsers.


(** * Properties of the Go core *)

Module CoreFacts.
Import Core.

(** ** The order of the severities and [worseOf] *)

Lemma worseOf_ord (a b : Status) :
  statusToOrd (worseOf a b) = Z.max (statusToOrd a) (statusToOrd b).
Proof.
  unfold worseOf. destruct (Z.gtb_spec (statusToOrd b) (statusToOrd a)); lia.
Qed.

Lemma statusToOrd_inj (a b : Status) :
  severity a -> severity b -> statusToOrd a = statusToOrd b -> a = b.
Proof. destruct a, b; simpl; intros; try contradiction; congruence || lia. Qed.

Lemma worseOf_severity (a b : Status) :
  severity a -> severity b -> severity (worseOf a b).
Proof. unfold worseOf. destruct (_ >? _); auto. Qed.

Lemma worseOf_comm (a b : Status) :
  severity a -> severity b -> worseOf a b = worseOf b a.
Proof. destruct a, b; simpl; intros; try contradiction; reflexivity. Qed.

(** Two statuses that are none of the four tie, and [worseOf] keeps its
    first argument. *)
Lemma worseOf_other_keeps_first :
  worseOf (StatusOther "A" 4) (StatusOther "B" 5) = StatusOther "A" 4
  /\ worseOf (StatusOther "B" 5) (StatusOther "A" 4) = StatusOther "B" 5.
Proof. split; reflexivity. Qed.

Lemma worseOf_assoc (a b c : Status) :
  worseOf a (worseOf b c) = worseOf (worseOf a b) c.
Proof.
  unfold worseOf.
  destruct (Z.gtb_spec (statusToOrd c) (statusToOrd b));
    destruct (Z.gtb_spec (statusToOrd b) (statusToOrd a));
    repeat match goal with
           | |- context [?x >? ?y] => destruct (Z.gtb_spec x y)
           end; try reflexivity; lia.
Qed.

Lemma worseOf_swap (w a b : Status) :
  severity a -> severity b ->
  worseOf (worseOf w a) b = worseOf (worseOf w b) a.
Proof.
  intros Ha Hb.
  rewrite <- !worseOf_assoc. f_equal. apply worseOf_comm; assumption.
Qed.

(** ** The accumulator *)

Lemma addAll_worst (l : list result) (acc : resultAccumulator) :
  worstStatus (addAll l acc) = fold_left worseOf (map status l) (worstStatus acc).
Proof.
  revert acc. induction l as [|r l IH]; intros acc; simpl; [reflexivity|].
  unfold addAll in IH. rewrite IH. reflexivity.
Qed.

Lemma addAll_results (l : list result) (acc : resultAccumulator) :
  results (addAll l acc) = results acc ++ l.
Proof.
  revert acc. induction l as [|r l IH]; intros acc; simpl.
  - symmetry. apply app_nil_r.
  - unfold addAll in IH. rewrite IH. simpl. rewrite <- app_assoc. reflexivity.
Qed.

Lemma fold_worseOf_perm (l1 l2 : list Status) :
  Permutation l1 l2 -> Forall severity l1 ->
  forall w, fold_left worseOf l1 w = fold_left worseOf l2 w.
Proof.
  induction 1 as [|x l l' _ IH|x y l|l l' l'' H1 IH1 H2 IH2]; intros Hs w; simpl.
  - reflexivity.
  - apply IH. inversion Hs; assumption.
  - inversion Hs as [|? ? Hy Hs']; subst. inversion Hs' as [|? ? Hx _]; subst.
    rewrite (worseOf_swap w y x); auto.
  - rewrite IH1 by assumption. apply IH2.
    eapply Permutation_Forall; eassumption.
Qed.

Lemma fold_worseOf_ord (l : list Status) : forall w,
  statusToOrd (fold_left worseOf l w)
  = fold_right Z.max (statusToOrd w) (map statusToOrd l).
Proof.
  induction l as [|x l IH]; intros w; simpl; [reflexivity|].
  rewrite IH, worseOf_ord. clear IH.
  induction l as [|y l IHl]; simpl; lia.
Qed.

Lemma checkInstances_addAll trace acc :
  checkInstances trace acc = addAll (probeResults trace) acc.
Proof.
  unfold checkInstances, addAll, probeResults, checkAnnouncement.
  revert acc. induction trace as [|p trace IH]; intros acc; simpl; [reflexivity|].
  apply IH.
Qed.

Lemma run_addAll c trace acc :
  run c trace acc =
  addAll (quotaResult c (matching c)
          :: (if skipHealthcheck c then [] else probeResults trace)) acc.
Proof.
  unfold run, checkQuota. destruct (skipHealthcheck c); simpl; [reflexivity|].
  apply checkInstances_addAll.
Qed.

(** The cases of [TestAccumulator] and [TestUpdateCheck]. *)
Lemma TestAccumulator :
  map (fun n => worstStatus (addAll (firstn n Examples.added) newAccumulator))
      [1; 2; 3; 4; 5]%nat
  = [StatusUnknown; StatusUnknown; StatusWarn; StatusWarn; StatusCrit].
Proof. reflexivity. Qed.

Lemma TestUpdateCheck :
  updateCheck (addAll Examples.foo_bar newAccumulator)
  = (StatusCrit, [], ["foo"; "bar"]).
Proof. reflexivity. Qed.

(** C2.  Severity aggregation: [statusToOrd] orders the four severities
    OK < UNKNOWN < WARN < CRIT without ties, [worseOf] is the maximum for
    that order, commutative on the severities and associative, and the worst
    status of the accumulator is the same for every order in which the same
    results are added. *)
Theorem worst_severity_order_independent :
  (statusToOrd StatusOK < statusToOrd StatusUnknown
   /\ statusToOrd StatusUnknown < statusToOrd StatusWarn
   /\ statusToOrd StatusWarn < statusToOrd StatusCrit)
  /\ (forall a b, severity a -> severity b ->
        statusToOrd a = statusToOrd b -> a = b)
  /\ (forall a b,
        statusToOrd (worseOf a b) = Z.max (statusToOrd a) (statusToOrd b))
  /\ (forall a b, severity a -> severity b -> worseOf a b = worseOf b a)
  /\ (forall a b c, worseOf a (worseOf b c) = worseOf (worseOf a b) c)
  /\ (forall acc l1 l2,
        Forall (fun r => severity (status r)) l1 ->
        Permutation l1 l2 ->
        worstStatus (addAll l1 acc) = worstStatus (addAll l2 acc)
        /\ statusToOrd (worstStatus (addAll l1 acc))
           = fold_right Z.max (statusToOrd (worstStatus acc))
               (map (fun r => statusToOrd (status r)) l1)).
Proof.
  split; [simpl; lia|].
  split; [exact statusToOrd_inj|].
  split; [exact worseOf_ord|].
  split; [exact worseOf_comm|].
  split; [exact worseOf_assoc|].
  intros acc l1 l2 Hs Hp. split.
  - rewrite !addAll_worst. apply fold_worseOf_perm.
    + apply Permutation_map. exact Hp.
    + apply Forall_map. exact Hs.
  - rewrite addAll_worst, fold_worseOf_ord, map_map. reflexivity.
Qed.

Lemma worst_severity_order_independent_witness :
  worstStatus (addAll [Examples.result_of StatusCrit;
                       Examples.result_of StatusOK;
                       Examples.result_of StatusWarn] newAccumulator)
  = worstStatus (addAll [Examples.result_of StatusWarn;
                         Examples.result_of StatusCrit;
                         Examples.result_of StatusOK] newAccumulator)
  /\ worseOf StatusUnknown StatusWarn = worseOf StatusWarn StatusUnknown.
Proof.
  destruct worst_severity_order_independent as (_ & _ & _ & Hcomm & _ & Hperm).
  split.
  - apply Hperm.
    + repeat constructor.
    + apply Permutation_sym, (Permutation_cons_append [_; _]).
  - apply Hcomm; exact I.
Defined.

(** ** The quota count *)

Lemma elem_of_seenSet (seen : gmap string bool) (k : string) :
  k ∈ seenSet seen <-> seen !! k = Some true.
Proof.
  unfold seenSet. rewrite elem_of_dom. split.
  - intros [b Hb]. apply map_lookup_filter_Some in Hb as [Hb Ht].
    simpl in Ht. subst b. exact Hb.
  - intros Hk. exists true. apply map_lookup_filter_Some. split; auto.
Qed.

Lemma seenSet_empty : seenSet ∅ = ∅.
Proof.
  apply set_eq. intros x. rewrite elem_of_seenSet, lookup_empty.
  split; [discriminate | intros H; apply not_elem_of_empty in H; contradiction].
Qed.

Lemma seenSet_insert (seen : gmap string bool) (k : string) :
  seenSet (<[k := true]> seen) = {[ k ]} ∪ seenSet seen.
Proof.
  apply set_eq. intros x. rewrite elem_of_union, elem_of_singleton, !elem_of_seenSet.
  destruct (decide (x = k)) as [->|Hne].
  - rewrite lookup_insert_eq. tauto.
  - rewrite lookup_insert_ne by congruence. tauto.
Qed.

Lemma seen_read (seen : gmap string bool) (k : string) :
  default false (seen !! k) = bool_decide (k ∈ seenSet seen).
Proof.
  destruct (seen !! k) as [[|]|] eqn:E; simpl; symmetry.
  - apply bool_decide_eq_true. apply elem_of_seenSet. exact E.
  - apply bool_decide_eq_false. rewrite elem_of_seenSet. congruence.
  - apply bool_decide_eq_false. rewrite elem_of_seenSet. congruence.
Qed.

Lemma quotaStep_untokened seen cnt a :
  serverToken a = "" ->
  quotaStep (seen, cnt) a = (<["" := true]> seen, cnt + 1).
Proof. intros E. unfold quotaStep. rewrite E. reflexivity. Qed.

Lemma quotaStep_first seen cnt a :
  serverToken a <> "" -> serverToken a ∉ seenSet seen ->
  quotaStep (seen, cnt) a = (<[serverToken a := true]> seen, cnt + 1).
Proof.
  intros E Hin. unfold quotaStep. rewrite seen_read.
  rewrite bool_decide_eq_false_2 by exact Hin.
  apply String.eqb_neq in E. rewrite E. reflexivity.
Qed.

Lemma quotaStep_repeat seen cnt a :
  serverToken a <> "" -> serverToken a ∈ seenSet seen ->
  quotaStep (seen, cnt) a = (seen, cnt).
Proof.
  intros E Hin. unfold quotaStep. rewrite seen_read.
  rewrite bool_decide_eq_true_2 by exact Hin.
  apply String.eqb_neq in E. rewrite E. reflexivity.
Qed.

Lemma tokens_nonempty anns : "" ∉ (list_to_set (tokens anns) : gset string).
Proof.
  rewrite elem_of_list_to_set. unfold tokens. rewrite list_elem_of_In, filter_In.
  intros [_ H]. discriminate.
Qed.

Lemma tokens_cons a anns :
  tokens (a :: anns) =
  if String.eqb (serverToken a) "" then tokens anns else serverToken a :: tokens anns.
Proof. unfold tokens. simpl. destruct (String.eqb _ _); reflexivity. Qed.

Lemma quotaLoop_count anns : forall seen cnt,
  snd (quotaLoop anns (seen, cnt)) =
  cnt + Z.of_nat (length (List.filter untokened anns))
  + Z.of_nat (size ((list_to_set (tokens anns) : gset string) ∖ seenSet seen)).
Proof.
  induction anns as [|a anns IH]; intros seen cnt.
  - simpl. rewrite difference_disjoint_L by set_solver.
    change (list_to_set (tokens [])) with (∅ : gset string).
    rewrite size_empty. lia.
  - unfold quotaLoop in *. cbn [fold_left List.filter].
    rewrite tokens_cons. unfold untokened at 1.
    destruct (String.eqb_spec (serverToken a) "") as [E|E].
    + rewrite quotaStep_untokened by exact E. rewrite IH, seenSet_insert.
      cbn [length].
      replace (list_to_set (tokens anns) ∖ ({[""]} ∪ seenSet seen))
        with ((list_to_set (tokens anns) : gset string) ∖ seenSet seen).
      * lia.
      * pose proof (tokens_nonempty anns). set_solver.
    + destruct (decide (serverToken a ∈ seenSet seen)) as [Hin|Hin].
      * rewrite quotaStep_repeat by assumption. rewrite IH.
        replace (list_to_set (serverToken a :: tokens anns) ∖ seenSet seen)
          with ((list_to_set (tokens anns) : gset string) ∖ seenSet seen)
          by set_solver.
        lia.
      * rewrite quotaStep_first by assumption. rewrite IH, seenSet_insert.
        replace (list_to_set (serverToken a :: tokens anns) ∖ seenSet seen)
          with ({[serverToken a]} ∪
                (list_to_set (tokens anns) : gset string)
                  ∖ ({[serverToken a]} ∪ seenSet seen))
          by (apply set_eq; intros x;
              destruct (decide (x = serverToken a)); set_solver).
        rewrite (size_union {[serverToken a]}) by set_solver.
        rewrite size_singleton. lia.
Qed.

Lemma quotaCount_distinct anns : quotaCount anns = loopCount anns.
Proof.
  unfold quotaCount, loopCount. rewrite quotaLoop_count, seenSet_empty.
  rewrite difference_empty_L. lia.
Qed.

Lemma tokens_app l1 l2 : tokens (l1 ++ l2) = tokens l1 ++ tokens l2.
Proof. unfold tokens. rewrite map_app. apply List.filter_app. Qed.

Lemma elem_of_tokens s anns :
  s ∈ tokens anns <-> s <> "" /\ s ∈ map serverToken anns.
Proof.
  unfold tokens. rewrite !list_elem_of_In, filter_In, negb_true_iff, String.eqb_neq.
  tauto.
Qed.

Lemma loopCount_snoc anns a :
  loopCount (anns ++ [a]) = loopCount anns + contribution anns a.
Proof.
  unfold loopCount, contribution.
  rewrite List.filter_app, List.length_app, tokens_app, list_to_set_app_L.
  cbn [List.filter]. unfold tokens at 2. cbn [map List.filter].
  unfold untokened at 2 4.
  destruct (String.eqb_spec (serverToken a) "") as [E|E]; cbn [negb length].
  - change (list_to_set []) with (∅ : gset string). rewrite union_empty_r_L. lia.
  - change (list_to_set [serverToken a]) with ({[serverToken a]} ∪ ∅ : gset string).
    rewrite union_empty_r_L.
    destruct (decide (serverToken a ∈ map serverToken anns)) as [Hin|Hin].
    + rewrite bool_decide_eq_true_2 by exact Hin.
      replace (list_to_set (tokens anns) ∪ {[serverToken a]})
        with (list_to_set (tokens anns) : gset string).
      * lia.
      * assert (serverToken a ∈ tokens anns) by (apply elem_of_tokens; auto).
        set_solver.
    + rewrite bool_decide_eq_false_2 by exact Hin.
      rewrite size_union.
      * rewrite size_singleton. lia.
      * assert (serverToken a ∉ tokens anns)
          by (rewrite elem_of_tokens; tauto).
        set_solver.
Qed.

Lemma loopCount_insert before a after :
  serverToken a = "" ->
  loopCount (before ++ a :: after) = loopCount (before ++ after) + 1.
Proof.
  intros E. unfold loopCount.
  rewrite !List.filter_app, !List.length_app, !tokens_app, tokens_cons.
  cbn [List.filter]. unfold untokened at 2. rewrite E. cbn [String.eqb length]. lia.
Qed.

Lemma checkInstances_cons p trace acc :
  checkInstances (p :: trace) acc
  = checkInstances trace (checkAnnouncement (fst p) (snd p) acc).
Proof. reflexivity. Qed.

(** What the events of an execution add up to: the goroutines that are
    done form a trace whose results are in the accumulator, and every
    announcement of the start is done, in flight or not started yet. *)
Lemma steps_trace events : forall s s',
  steps s events = Some s' ->
  exists trace,
    accum s' = checkInstances trace (accum s)
    /\ Permutation (map fst trace ++ inflight s' ++ unstarted s')
         (inflight s ++ unstarted s).
Proof.
  induction events as [|e events IH]; intros s s' H.
  - injection H as <-. exists []. split; reflexivity.
  - cbn [steps] in H. destruct (step s e) as [s1|] eqn:E; [|discriminate].
    destruct (IH _ _ H) as (trace & Hacc & Hperm).
    destruct e as [|i f]; cbn [step] in E.
    + destruct (unstarted s) as [|ann rest]; [discriminate|].
      injection E as <-. cbn [accum inflight unstarted] in *.
      exists trace. split; [exact Hacc|].
      rewrite Hperm, <- app_assoc. reflexivity.
    + destruct (inflight s !! i) as [ann|] eqn:Ei; [|discriminate].
      injection E as <-. cbn [accum inflight unstarted] in *.
      exists ((ann, f) :: trace). split; [exact Hacc|].
      cbn [map fst app]. rewrite Hperm.
      rewrite (delete_Permutation (inflight s) i ann Ei) at 2. reflexivity.
Qed.

Lemma steps_app s es1 es2 :
  steps s (es1 ++ es2)
  = match steps s es1 with
    | Some s1 => steps s1 es2
    | None => None
    end.
Proof.
  revert s. induction es1 as [|e es1 IH]; intros s; [reflexivity|].
  cbn [app steps]. destruct (step s e); [apply IH|reflexivity].
Qed.

(** The loop can always go on to its end. *)
Lemma steps_start u : forall g acc,
  steps {| unstarted := u; inflight := g; accum := acc |}
    (replicate (length u) Started)
  = Some {| unstarted := []; inflight := g ++ u; accum := acc |}.
Proof.
  induction u as [|a u IH]; intros g acc; cbn.
  - rewrite app_nil_r. reflexivity.
  - rewrite IH, <- app_assoc. reflexivity.
Qed.

(** The goroutines in flight can finish in every order. *)
Lemma steps_finish trace : forall g acc,
  Permutation (map fst trace) g ->
  exists events,
    steps {| unstarted := []; inflight := g; accum := acc |} events
    = Some {| unstarted := []; inflight := [];
              accum := checkInstances trace acc |}.
Proof.
  induction trace as [|[a f] trace IH]; intros g acc Hp.
  - apply Permutation_nil in Hp as ->. exists []. reflexivity.
  - assert (Hin : a ∈ g) by (rewrite <- Hp; left).
    apply list_elem_of_lookup in Hin as [i Hi].
    destruct (IH (delete i g) (checkAnnouncement a f acc)) as [events He].
    { apply (Permutation_cons_inv (a := a)).
      rewrite <- (delete_Permutation g i a Hi). exact Hp. }
    exists (Finished i f :: events). cbn [steps step inflight].
    rewrite Hi. exact He.
Qed.

(** No execution is stuck: whatever has happened, the loop can end and
    the goroutines finish, and [wg.Wait] returns. *)
Lemma steps_progress s :
  exists events s',
    steps s events = Some s' /\ waited s' = true.
Proof.
  destruct s as [u g acc].
  destruct (steps_finish (map (fun a => (a, FetchErr "")) (g ++ u)) (g ++ u) acc)
    as [events He].
  { rewrite map_map. cbn [fst]. rewrite map_id. reflexivity. }
  exists (replicate (length u) Started ++ events). eexists.
  rewrite steps_app, steps_start. split; [exact He|reflexivity].
Qed.

Lemma waited_done s s0 (trace : list (Announcement * fetched)) :
  waited s = true ->
  Permutation (map fst trace ++ inflight s ++ unstarted s)
    (inflight s0 ++ unstarted s0) ->
  Permutation (map fst trace) (inflight s0 ++ unstarted s0).
Proof.
  unfold waited. intros Hw Hp.
  destruct (unstarted s); [|discriminate].
  destruct (inflight s); [|discriminate].
  rewrite !app_nil_r in Hp. exact Hp.
Qed.

(** The executions of [checkInstances] are the traces with one goroutine
    for each announcement. *)
Lemma checkInstancesSteps_trace anns events acc acc' :
  checkInstancesSteps anns events acc = Some acc' ->
  exists trace,
    Permutation (map fst trace) anns /\ acc' = checkInstances trace acc.
Proof.
  unfold checkInstancesSteps. intros H.
  destruct (steps _ events) as [s|] eqn:E; [|discriminate].
  destruct (waited s) eqn:Hw; [|discriminate]. injection H as <-.
  destruct (steps_trace _ _ _ E) as (trace & Hacc & Hp).
  exists trace. split; [|exact Hacc].
  apply (waited_done s _ trace Hw) in Hp. exact Hp.
Qed.

Lemma trace_checkInstancesSteps anns trace acc :
  Permutation (map fst trace) anns ->
  exists events,
    checkInstancesSteps anns events acc = Some (checkInstances trace acc).
Proof.
  intros Hp. destruct (steps_finish trace anns acc Hp) as [events He].
  exists (replicate (length anns) Started ++ events).
  unfold checkInstancesSteps. rewrite steps_app, steps_start.
  cbn [app]. rewrite He. reflexivity.
Qed.

(** C8.  A run adds exactly one quota result and, unless the healthcheck
    is skipped, exactly one result for each matching announcement, whatever
    its fetch returned.  Whatever the order in which the loop of
    [checkInstances] starts the goroutines and the goroutines finish, when
    [wg.Wait] returns the results added are the quota result and then those
    of a trace that holds each matching announcement once, each with the
    result of its own fetch; every such trace is the trace of an execution,
    and no execution is stuck before [wg.Wait] returns, so no result is
    dropped. *)
Theorem run_one_result_each (c : check) (acc : resultAccumulator) :
  (forall events acc',
     runSteps c events acc = Some acc' ->
     exists trace,
       acc' = run c trace acc
       /\ (skipHealthcheck c = true ->
           results acc' = results acc ++ [quotaResult c (matching c)])
       /\ (skipHealthcheck c = false ->
           Permutation (map fst trace) (matching c)
           /\ results acc'
              = results acc ++ quotaResult c (matching c) :: probeResults trace
           /\ Forall2 (fun p r => r = announcementResult (fst p) (snd p))
                trace (probeResults trace)
           /\ length (probeResults trace) = length (matching c)))
  /\ (forall trace,
        scheduled c trace ->
        exists events, runSteps c events acc = Some (run c trace acc))
  /\ (forall events s,
        steps {| unstarted := matching c; inflight := [];
                 accum := checkQuota c (matching c) acc |} events = Some s ->
        exists more acc', runSteps c (events ++ more) acc = Some acc').
Proof.
  split; [|split].
  - intros events acc' H. unfold runSteps in H. cbv zeta in H.
    destruct (skipHealthcheck c) eqn:Hskip; cbn [negb] in H.
    + injection H as <-. exists [].
      split; [unfold run; rewrite Hskip; reflexivity|].
      split; [|discriminate]. intros _. unfold checkQuota. reflexivity.
    + apply checkInstancesSteps_trace in H as (trace & Hp & ->).
      exists trace.
      split; [unfold run; rewrite Hskip; reflexivity|].
      split; [discriminate|]. intros _.
      split; [exact Hp|].
      split; [rewrite checkInstances_addAll, addAll_results;
              unfold checkQuota, add; cbn [results];
              rewrite <- app_assoc; reflexivity|].
      split.
      * clear. unfold probeResults.
        induction trace as [|p t IH]; simpl; constructor; auto.
      * unfold probeResults. rewrite length_map, <- (length_map fst).
        apply Permutation_length. exact Hp.
  - intros trace Hs. unfold runSteps, run. cbv zeta.
    destruct (skipHealthcheck c); cbn [negb].
    + exists []. reflexivity.
    + apply trace_checkInstancesSteps. exact Hs.
  - intros events s Hsteps. unfold runSteps. cbv zeta.
    destruct (skipHealthcheck c); cbn [negb].
    + exists [], (checkQuota c (matching c) acc). reflexivity.
    + destruct (steps_progress s) as (more & s' & Hmore & Hw).
      exists more, (accum s'). unfold checkInstancesSteps.
      rewrite steps_app, Hsteps, Hmore, Hw. reflexivity.
Qed.

Lemma run_one_result_each_witness :
  exists trace,
    Permutation (map fst trace)
      (matching (Examples.config Examples.state3 1 1))
    /\ length (probeResults trace) = 2%nat.
Proof.
  destruct (run_one_result_each (Examples.config Examples.state3 1 1)
              newAccumulator) as [H _].
  destruct (H [Started; Started;
               Finished 1 (FetchErr "connection refused");
               Finished 0 (Examples.answered Examples.foo1 200)]
              _ eq_refl) as (trace & _ & _ & Hr).
  destruct (Hr eq_refl) as (Hp & _ & _ & Hlen).
  exists trace. split; [exact Hp|exact Hlen].
Defined.

(** C10.  An announcement whose metadata holds the token key with a value
    that is not a string has no token for the core: [serverToken] is empty,
    and wherever the announcement stands in the list it adds exactly one to
    the count, which is otherwise that of the list without it. *)
Theorem non_string_token_counts_alone (a : Announcement) (v : JValue)
  (before after : list Announcement) :
  Metadata a !! tokenkey = Some v ->
  (forall s, v <> JString s) ->
  serverToken a = ""
  /\ quotaCount (before ++ a :: after) = quotaCount (before ++ after) + 1.
Proof.
  intros Hv Hns.
  assert (E : serverToken a = "").
  { unfold serverToken. rewrite Hv. destruct v; try reflexivity.
    exfalso. eapply Hns. reflexivity. }
  split; [exact E|].
  rewrite !quotaCount_distinct. apply loopCount_insert. exact E.
Qed.

Lemma non_string_token_counts_alone_witness :
  serverToken Examples.foo4 = ""
  /\ quotaCount ([Examples.foo4] ++ Examples.foo4 :: [Examples.foo1])
     = quotaCount ([Examples.foo4] ++ [Examples.foo1]) + 1.
Proof.
  apply (non_string_token_counts_alone Examples.foo4 (JNumber 7)).
  - reflexivity.
  - intros s. discriminate.
Defined.

End CoreFacts.

(** * Properties of the legacy script *)

Module LegacyFacts.
Import Legacy.

(** ** The announcement count *)

Lemma py_eqb_eq v w : py_eqb v w = true <-> py_key v = py_key w.
Proof. unfold py_eqb. apply bool_decide_eq_true. Qed.

Lemma seen_member token seen :
  existsb (py_eqb token) seen = bool_decide (py_key token ∈ seenKeys seen).
Proof.
  unfold seenKeys. induction seen as [|x seen IH]; simpl.
  - symmetry. apply bool_decide_eq_false. set_solver.
  - rewrite IH. unfold py_eqb.
    destruct (decide (py_key token = py_key x)) as [E|E].
    + rewrite (bool_decide_eq_true_2 _ E). simpl. symmetry.
      apply bool_decide_eq_true. set_solver.
    + rewrite (bool_decide_eq_false_2 _ E). simpl.
      apply bool_decide_ext. set_solver.
Qed.

Lemma seenKeys_cons x seen : seenKeys (x :: seen) = {[py_key x]} ∪ seenKeys seen.
Proof. reflexivity. Qed.

Lemma seenKeys_app l1 l2 : seenKeys (l1 ++ l2) = seenKeys l1 ∪ seenKeys l2.
Proof. unfold seenKeys. rewrite map_app. apply list_to_set_app_L. Qed.

Lemma legacy_tokens_cons a anns :
  tokens (a :: anns) =
  match Metadata a !! tokenkey with
  | Some t => t :: tokens anns
  | None => tokens anns
  end.
Proof. reflexivity. Qed.

Lemma legacy_tokens_app l1 l2 : tokens (l1 ++ l2) = tokens l1 ++ tokens l2.
Proof. apply omap_app. Qed.

Lemma count_loop anns : forall seen count,
  snd (fold_left count_step anns (seen, count)) =
  count + Z.of_nat (length (List.filter untokened anns))
  + Z.of_nat (size (seenKeys (tokens anns) ∖ seenKeys seen)).
Proof.
  induction anns as [|a anns IH]; intros seen count.
  - cbn [fold_left List.filter length snd].
    change (seenKeys (tokens [])) with (∅ : gset JValue).
    replace (∅ ∖ seenKeys seen) with (∅ : gset JValue) by set_solver.
    rewrite size_empty. lia.
  - cbn [fold_left List.filter]. rewrite legacy_tokens_cons.
    unfold count_step at 2, untokened at 1.
    destruct (Metadata a !! tokenkey) as [token|] eqn:E.
    + rewrite bool_decide_eq_false_2 by discriminate.
      rewrite seen_member, seenKeys_cons.
      destruct (decide (py_key token ∈ seenKeys seen)) as [Hin|Hin].
      * rewrite (bool_decide_eq_true_2 _ Hin). cbn [negb]. rewrite IH.
        replace (({[py_key token]} ∪ seenKeys (tokens anns)) ∖ seenKeys seen)
          with (seenKeys (tokens anns) ∖ seenKeys seen) by set_solver.
        lia.
      * rewrite (bool_decide_eq_false_2 _ Hin). cbn [negb]. rewrite IH, seenKeys_cons.
        replace (({[py_key token]} ∪ seenKeys (tokens anns)) ∖ seenKeys seen)
          with ({[py_key token]} ∪
                seenKeys (tokens anns) ∖ ({[py_key token]} ∪ seenKeys seen))
          by (apply set_eq; intros x;
              destruct (decide (x = py_key token)); set_solver).
        rewrite (size_union {[py_key token]}) by set_solver.
        rewrite size_singleton. lia.
    + rewrite bool_decide_eq_true_2 by reflexivity. cbn [length]. rewrite IH. lia.
Qed.

Lemma count_distinct anns : count_announcements anns = distinctCount anns.
Proof.
  unfold count_announcements, distinctCount. rewrite count_loop.
  change (seenKeys []) with (∅ : gset JValue). rewrite difference_empty_L. lia.
Qed.

Lemma legacy_distinctCount_snoc anns a :
  distinctCount (anns ++ [a]) = distinctCount anns + contribution anns a.
Proof.
  unfold distinctCount, contribution.
  rewrite List.filter_app, List.length_app, legacy_tokens_app, seenKeys_app.
  rewrite (legacy_tokens_cons a []).
  cbn [List.filter]. unfold untokened at 2.
  destruct (Metadata a !! tokenkey) as [token|] eqn:E.
  - rewrite bool_decide_eq_false_2 by discriminate. cbn [length].
    change (seenKeys (token :: tokens []))
      with ({[py_key token]} ∪ ∅ : gset JValue).
    rewrite union_empty_r_L, seen_member.
    destruct (decide (py_key token ∈ seenKeys (tokens anns))) as [Hin|Hin].
    + rewrite (bool_decide_eq_true_2 _ Hin).
      replace (seenKeys (tokens anns) ∪ {[py_key token]})
        with (seenKeys (tokens anns)) by set_solver.
      lia.
    + rewrite (bool_decide_eq_false_2 _ Hin).
      rewrite size_union by set_solver. rewrite size_singleton. lia.
  - rewrite bool_decide_eq_true_2 by reflexivity. cbn [length].
    change (seenKeys (tokens [])) with (∅ : gset JValue).
    rewrite union_empty_r_L. lia.
Qed.


(** ** The sort of the results *)

Lemma sort_insert_perm x l : Permutation (sort_insert x l) (x :: l).
Proof.
  induction l as [|y l IH]; simpl.
  - reflexivity.
  - destruct (key_ltb x y).
    + rewrite IH. apply perm_swap.
    + reflexivity.
Qed.

Lemma sort_results_perm l : Permutation (sort_results l) l.
Proof.
  induction l as [|x l IH]; simpl.
  - reflexivity.
  - rewrite sort_insert_perm. constructor. exact IH.
Qed.

Lemma key_ltb_code x y : key_ltb x y = true -> code x <= code y.
Proof. unfold key_ltb. intros H. apply orb_true_iff in H as [H|H]; lia. Qed.

Lemma key_ltb_false_code x y : key_ltb x y = false -> code y <= code x.
Proof. unfold key_ltb. intros H. apply orb_false_iff in H as [H _]. lia. Qed.

Lemma sort_insert_sorted x l : code_sorted l -> code_sorted (sort_insert x l).
Proof.
  unfold code_sorted. induction 1 as [|y l Hl IH Hy]; simpl.
  - repeat constructor.
  - destruct (key_ltb x y) eqn:E.
    + constructor; [exact IH|].
      eapply Permutation_Forall; [symmetry; apply sort_insert_perm|].
      constructor; [apply key_ltb_code; exact E | exact Hy].
    + apply key_ltb_false_code in E.
      constructor; [constructor; assumption|].
      constructor; [exact E|].
      eapply List.Forall_impl; [|exact Hy]. simpl. intros a Ha. lia.
Qed.

Lemma sort_results_sorted l : code_sorted (sort_results l).
Proof.
  induction l as [|x l IH]; simpl.
  - constructor.
  - apply sort_insert_sorted. exact IH.
Qed.

Lemma first_code_max l r : code_sorted l -> In r l -> code r <= first_code l.
Proof.
  intros Hs Hin. destruct Hs as [|y l Hl Hy]; [contradiction|].
  simpl. destruct Hin as [->|Hin]; [lia|].
  rewrite List.Forall_forall in Hy. apply Hy. exact Hin.
Qed.

Lemma first_code_in l : l <> [] -> exists r, In r l /\ first_code l = code r.
Proof. destruct l as [|r l]; [congruence|]. intros _. exists r. simpl. auto. Qed.

Lemma sorted_codes_le l :
  code_sorted l -> Forall (fun r => code r <= first_code l) l.
Proof.
  intros Hs. apply List.Forall_forall. intros r Hr. apply first_code_max; assumption.
Qed.

Lemma downgrade_loop_spec fresh l : forall d,
  code_sorted l -> Forall (fun r => code r <= 2) l ->
  downgrade_loop fresh l d =
  (map (recheck_result fresh) l, d + Z.of_nat (length (List.filter (stale fresh) l))).
Proof.
  induction l as [|r l IH]; intros d Hs Hle.
  - simpl. f_equal. lia.
  - inversion Hs as [|? ? Hs' Hr]; subst. inversion Hle as [|? ? Hr2 Hle']; subst.
    cbn [downgrade_loop map List.filter]. unfold recheck_result at 1.
    destruct (Z.eqb_spec (code r) 2) as [E|E]; cbn [negb].
    + destruct (announcement r) as [a|] eqn:Ea.
      * destruct (ann_in a fresh) eqn:Ein; cbn [negb].
        -- assert (Hst : stale fresh r = false)
             by (unfold stale; rewrite Ea, Ein; apply andb_false_r).
           rewrite Hst, IH by assumption. reflexivity.
        -- assert (Hst : stale fresh r = true).
           { unfold stale. rewrite Ea, Ein, E. reflexivity. }
           rewrite Hst, IH by assumption. unfold downgrade. rewrite Ea.
           cbn [length]. f_equal. lia.
      * assert (Hst : stale fresh r = false)
          by (unfold stale; rewrite Ea; apply andb_false_r).
        rewrite Hst, IH by assumption. reflexivity.
    + (* the loop stops: every later result is below critical *)
      assert (Hrest : Forall (fun x => stale fresh x = false) l).
      { eapply List.Forall_impl; [|exact Hr]. simpl. intros x Hx. unfold stale.
        destruct (Z.eqb_spec (code x) 2); [lia|reflexivity]. }
      assert (Hmap : map (recheck_result fresh) l = l).
      { clear -Hrest. induction Hrest as [|x l Hx _ IHl]; simpl; [reflexivity|].
        unfold recheck_result at 1. rewrite Hx, IHl. reflexivity. }
      assert (Hfil : List.filter (stale fresh) l = []).
      { clear -Hrest. induction Hrest as [|x l Hx _ IHl]; simpl; [reflexivity|].
        rewrite Hx. exact IHl. }
      assert (Hst : stale fresh r = false).
      { unfold stale. destruct (Z.eqb_spec (code r) 2); [contradiction|reflexivity]. }
      rewrite Hst, Hmap, Hfil. simpl. f_equal. lia.
Qed.


(** ** The results of a run *)

(** The codes of one family: floor division by 100. *)
Lemma floor_family (s k : Z) :
  (s / 100 =? k) = bool_decide (100 * k <= s <= 100 * k + 99).
Proof.
  destruct (Z.eqb_spec (s / 100) k) as [E|E]; symmetry.
  - apply bool_decide_eq_true.
    pose proof (Z.mul_div_le s 100 ltac:(lia)).
    pose proof (Z.mul_succ_div_gt s 100 ltac:(lia)). lia.
  - apply bool_decide_eq_false. intros H. apply E.
    symmetry. apply (Z.div_unique s 100 k (s - 100 * k)); lia.
Qed.

Lemma make_response_result_code seen c r :
  code (fst (make_response_result seen c r)) = c.
Proof.
  unfold make_response_result.
  destruct (negb (c =? 0)); [destruct (bool_decide _)|]; reflexivity.
Qed.

Lemma make_response_result_ann seen c r :
  announcement (fst (make_response_result seen c r)) = Some (resp_announcement r).
Proof.
  unfold make_response_result.
  destruct (negb (c =? 0)); [destruct (bool_decide _)|]; reflexivity.
Qed.

Lemma handle_response_code args seen r :
  code (fst (handle_response args seen r)) = response_code r.
Proof.
  unfold handle_response, response_code, OK, WARN, CRIT.
  destruct (exc r) as [[]|]; try reflexivity.
  rewrite make_response_result_code, (floor_family _ 2), (floor_family _ 4).
  repeat case_bool_decide; repeat case_decide; try reflexivity; lia.
Qed.

Lemma handle_response_ann args seen r :
  announcement (fst (handle_response args seen r)) = Some (resp_announcement r).
Proof.
  unfold handle_response.
  destruct (exc r) as [[]|]; try reflexivity.
  apply make_response_result_ann.
Qed.

Lemma handle_all_codes args checks : forall seen,
  map code (fst (handle_all args seen checks)) = map response_code checks.
Proof.
  induction checks as [|r checks IH]; intros seen; simpl; [reflexivity|].
  pose proof (handle_response_code args seen r) as Hc.
  destruct (handle_response args seen r) as [res seen1]. simpl in Hc.
  specialize (IH seen1). destruct (handle_all args seen1 checks) as [rs seen2].
  simpl in *. congruence.
Qed.

Lemma handle_all_anns args checks : forall seen,
  map announcement (fst (handle_all args seen checks))
  = map (fun r => Some (resp_announcement r)) checks.
Proof.
  induction checks as [|r checks IH]; intros seen; simpl; [reflexivity|].
  pose proof (handle_response_ann args seen r) as Hc.
  destruct (handle_response args seen r) as [res seen1]. simpl in Hc.
  specialize (IH seen1). destruct (handle_all args seen1 checks) as [rs seen2].
  simpl in *. congruence.
Qed.

Lemma response_code_range r : 0 <= response_code r <= 2.
Proof.
  unfold response_code, OK, WARN, CRIT.
  destruct (exc r); repeat case_decide; lia.
Qed.

Lemma quota_result_range args backend anns :
  0 <= code (quota_result args backend anns) <= 2.
Proof.
  unfold quota_result.
  destruct (_ <? _); [|destruct (_ <? _)]; simpl; lia.
Qed.

Lemma collect_perm args backend anns checks :
  Permutation (collect args backend anns checks) (gathered args backend anns checks).
Proof.
  unfold collect, gathered. rewrite sort_results_perm.
  destruct (do_healthcheck args); reflexivity.
Qed.

Lemma gathered_range args backend anns checks :
  Forall (fun r => 0 <= code r <= 2) (gathered args backend anns checks).
Proof.
  unfold gathered. constructor; [apply quota_result_range|].
  destruct (do_healthcheck args); [|constructor].
  apply List.Forall_forall. intros r Hr.
  apply (in_map code) in Hr. rewrite handle_all_codes in Hr.
  apply in_map_iff in Hr as (x & <- & _). apply response_code_range.
Qed.

Lemma collect_range args backend anns checks :
  Forall (fun r => 0 <= code r <= 2) (collect args backend anns checks).
Proof.
  eapply Permutation_Forall; [symmetry; apply collect_perm|apply gathered_range].
Qed.

Lemma collect_sorted args backend anns checks :
  code_sorted (collect args backend anns checks).
Proof. apply sort_results_sorted. Qed.


Lemma stale_none_map fresh l :
  Forall (fun r => stale fresh r = false) l ->
  map (recheck_result fresh) l = l /\ List.filter (stale fresh) l = [].
Proof.
  induction 1 as [|x l Hx _ [IH1 IH2]]; simpl; [split; reflexivity|].
  unfold recheck_result at 1. rewrite Hx, IH1, IH2. split; reflexivity.
Qed.

Lemma ann_in_id a l :
  ann_in a l = true -> exists b, In b l /\ AnnouncementID b = AnnouncementID a.
Proof.
  unfold ann_in. rewrite existsb_exists. intros (b & Hb & E). exists b.
  split; [exact Hb|]. unfold ann_eqb in E.
  repeat (apply andb_true_iff in E as [E _]).
  apply String.eqb_eq in E. congruence.
Qed.

Lemma recheck_state args backend state results :
  code_sorted results -> Forall (fun r => code r <= 2) results ->
  let fresh := matching args state in
  let n := Z.of_nat (length (List.filter (stale fresh) results)) in
  recheck args (DiscoveryState backend state) results =
  if n =? 0 then map (recheck_result fresh) results
  else sort_results (map (recheck_result fresh) results
                     ++ [downgrade_summary n backend]).
Proof.
  intros Hs Hle fresh n. unfold recheck. cbn [get_announcements].
  fold fresh. rewrite (downgrade_loop_spec fresh results 0 Hs Hle).
  rewrite Z.add_0_l. fold n. destruct (n =? 0); reflexivity.
Qed.

Lemma codes_le_first l :
  code_sorted l -> first_code l = 2 -> Forall (fun r => code r <= 2) l.
Proof.
  intros Hs H2. pose proof (sorted_codes_le l Hs) as H. rewrite H2 in H. exact H.
Qed.

(** The second answer of the discovery server is read only when the
    results are critical and the healthcheck is on. *)
Lemma run_without_recheck args backend state checks second :
  (first_code (collect args backend (matching args state) checks) =? 2)
  && do_healthcheck args = false ->
  run args (DiscoveryState backend state) checks second
  = (first_code (collect args backend (matching args state) checks),
     collect args backend (matching args state) checks).
Proof.
  intros H. unfold run. cbn [get_announcements]. cbv zeta. rewrite H.
  reflexivity.
Qed.

(** C7.  When the results are critical, the healthcheck is on and the
    second [get_announcements] raises, the run ends with the results as they
    were, every critical one still critical, followed by exactly one more
    result, and exits critical.  The result appended is a warning without
    an announcement whose message reports the failure: it reads
    "announcements warning: failed to re-check" and, on the next line, the
    traceback of the exception. *)
Theorem failed_recheck_keeps_criticals (args : Args) (backend : option string)
  (state : list Announcement) (checks : list Response) (traceback : string) :
  do_healthcheck args = true ->
  first_code (collect args backend (matching args state) checks) = CRIT ->
  run args (DiscoveryState backend state) checks (DiscoveryRaised traceback)
  = (CRIT, collect args backend (matching args state) checks
           ++ [recheck_failure traceback])
  /\ code (recheck_failure traceback) = WARN
  /\ announcement (recheck_failure traceback) = None
  /\ message (recheck_failure traceback)
     = "announcements warning: failed to re-check" +:+ nl +:+ traceback
  /\ Forall (fun r => code r = CRIT ->
                      In r (snd (run args (DiscoveryState backend state) checks
                                   (DiscoveryRaised traceback))))
       (collect args backend (matching args state) checks).
Proof.
  intros Hhc Hcrit. unfold CRIT in *.
  assert (Hrun : run args (DiscoveryState backend state) checks
                   (DiscoveryRaised traceback)
                 = (2, collect args backend (matching args state) checks
                       ++ [recheck_failure traceback])); cycle 1.
  { split; [exact Hrun|]. do 3 (split; [reflexivity|]).
    rewrite Hrun. cbn [snd]. apply List.Forall_forall. intros r Hin _.
    apply in_or_app. left. exact Hin. }
  unfold run. cbn [get_announcements]. cbv zeta.
  rewrite Hcrit, Hhc. cbn [Z.eqb Pos.eqb andb]. unfold recheck.
  cbn [get_announcements]. f_equal.
  destruct (collect args backend (matching args state) checks) as [|r l];
    [discriminate|exact Hcrit].
Qed.

Lemma failed_recheck_keeps_criticals_witness :
  fst (run (Examples.args 1 1)
         (DiscoveryState None [Examples.foo1])
         [Examples.refused Examples.foo1]
         (DiscoveryRaised "Traceback"))
  = CRIT.
Proof.
  destruct (failed_recheck_keeps_criticals (Examples.args 1 1) None
              [Examples.foo1] [Examples.refused Examples.foo1] "Traceback")
    as [H _].
  - reflexivity.
  - vm_compute. reflexivity.
  - rewrite H. reflexivity.
Defined.

(** C1.  When the results are critical and the healthcheck is on, the run
    asks the discovery server again, and every critical result whose
    announcement is not among the announcements of that answer (no
    announcement there equals it; in particular none has its id) becomes a
    warning with the downgrade note appended to its message, every other
    result staying as it was.  The counter is the number of these results;
    when it is not zero the summary that carries it is appended and the
    results are sorted again.  When every critical result was downgraded,
    as when the one critical result was, the run exits with a warning. *)
Theorem recheck_downgrades_missing (args : Args) (backend : option string)
  (state : list Announcement) (checks : list Response)
  (backend2 : option string) (state2 : list Announcement) :
  do_healthcheck args = true ->
  first_code (collect args backend (matching args state) checks) = CRIT ->
  let pre := collect args backend (matching args state) checks in
  let fresh := matching args state2 in
  let n := Z.of_nat (length (List.filter (stale fresh) pre)) in
  let out := run args (DiscoveryState backend state) checks
               (DiscoveryState backend2 state2) in
  downgrade_loop fresh pre 0 = (map (recheck_result fresh) pre, n)
  /\ (forall r, stale fresh r = true ->
        code (recheck_result fresh r) = WARN
        /\ message (recheck_result fresh r)
           = message r +:+ nl +:+ "(downgraded)"
        /\ announcement (recheck_result fresh r) = announcement r)
  /\ (forall r, stale fresh r = false -> recheck_result fresh r = r)
  /\ (forall r a, code r = CRIT -> announcement r = Some a ->
        (forall b, In b fresh -> AnnouncementID b <> AnnouncementID a) ->
        stale fresh r = true)
  /\ snd out = (if n =? 0 then map (recheck_result fresh) pre
                else sort_results (map (recheck_result fresh) pre
                                   ++ [downgrade_summary n backend2]))
  /\ fst out = first_code (snd out)
  /\ ((forall r, In r pre -> code r = CRIT -> stale fresh r = true) ->
      fst out = WARN).
Proof.
  intros Hhc Hcrit pre fresh n out. unfold CRIT, WARN in *.
  change (first_code pre = 2) in Hcrit.
  assert (Hs : code_sorted pre) by apply collect_sorted.
  assert (Hle : Forall (fun r => code r <= 2) pre)
    by (apply codes_le_first; assumption).
  assert (Hout : out = (first_code (recheck args (DiscoveryState backend2 state2) pre),
                        recheck args (DiscoveryState backend2 state2) pre)).
  { subst out. unfold run. cbn [get_announcements]. cbv zeta. fold pre.
    rewrite Hcrit, Hhc. reflexivity. }
  pose proof (recheck_state args backend2 state2 pre Hs Hle) as Hre.
  cbv zeta in Hre. fold fresh in Hre. fold n in Hre.
  split; [|split; [|split; [|split; [|split; [|split]]]]].
  - rewrite (downgrade_loop_spec fresh pre 0 Hs Hle). reflexivity.
  - intros r Hr. unfold recheck_result. rewrite Hr. repeat split; reflexivity.
  - intros r Hr. unfold recheck_result. rewrite Hr. reflexivity.
  - intros r a Hc Ha Hid. unfold stale. rewrite Hc, Ha. cbn [Z.eqb Pos.eqb andb].
    destruct (ann_in a fresh) eqn:E; [|reflexivity].
    apply ann_in_id in E as (b & Hb & Eb). exfalso. exact (Hid b Hb Eb).
  - rewrite Hout. cbn [snd]. exact Hre.
  - rewrite Hout. reflexivity.
  - intros Hall. rewrite Hout. cbn [fst]. rewrite Hre.
    assert (Hpos : n <> 0).
    { destruct pre as [|r0 l0] eqn:Ep; [discriminate|].
      assert (Hst : stale fresh r0 = true)
        by (apply Hall; [left; reflexivity|exact Hcrit]).
      subst n. cbn [List.filter]. rewrite Hst. cbn [length]. lia. }
    apply Z.eqb_neq in Hpos. rewrite Hpos.
    set (final := map (recheck_result fresh) pre ++ [downgrade_summary n backend2]).
    assert (Hfin : Forall (fun r => code r <= 1) final).
    { apply Forall_app. split; [|repeat constructor; simpl; lia].
      apply Forall_map. apply List.Forall_forall. intros r Hr.
      unfold recheck_result. destruct (stale fresh r) eqn:Est; [simpl; lia|].
      rewrite List.Forall_forall in Hle. specialize (Hle r Hr).
      destruct (Z.eq_dec (code r) 2) as [E2|E2]; [|lia].
      rewrite (Hall r Hr E2) in Est. discriminate. }
    assert (Hsum : In (downgrade_summary n backend2) (sort_results final)).
    { eapply Permutation_in; [symmetry; apply sort_results_perm|].
      apply in_or_app. right. left. reflexivity. }
    pose proof (first_code_max _ _ (sort_results_sorted final) Hsum) as Hge.
    change (code (downgrade_summary n backend2)) with 1 in Hge.
    destruct (first_code_in (sort_results final)) as (r & Hr & E).
    { intros E. rewrite E in Hsum. contradiction. }
    apply (Permutation_in _ (sort_results_perm final)) in Hr.
    rewrite List.Forall_forall in Hfin. specialize (Hfin r Hr).
    lia.
Qed.

Lemma recheck_downgrades_missing_witness :
  fst (run (Examples.args 1 1)
         (DiscoveryState None [Examples.foo1])
         [Examples.refused Examples.foo1]
         (DiscoveryState (Some "disco-2") []))
  = WARN.
Proof.
  destruct (recheck_downgrades_missing (Examples.args 1 1) None
              [Examples.foo1] [Examples.refused Examples.foo1]
              (Some "disco-2") []) as (_ & _ & _ & _ & _ & _ & H).
  - reflexivity.
  - vm_compute. reflexivity.
  - apply H. intros r [<- | [<- | []]] Hc.
    + vm_compute. reflexivity.
    + vm_compute in Hc. discriminate Hc.
Defined.

End LegacyFacts.

(** * The claims that concern both programs *)

Module BothFacts.
Import Both.

(** The codes of one family above 0: truncating division by 100. *)
Lemma quot_family (s k : Z) :
  0 < k ->
  (Z.quot s 100 =? k) = bool_decide (100 * k <= s <= 100 * k + 99).
Proof.
  intros Hk. destruct (Z_le_gt_dec 0 s) as [Hs|Hs].
  - rewrite Z.quot_div_nonneg by lia. apply LegacyFacts.floor_family.
  - assert (H : Z.quot s 100 <= 0).
    { replace s with (- (- s)) by lia. rewrite Z.quot_opp_l by lia.
      pose proof (Z.quot_pos (- s) 100 ltac:(lia) ltac:(lia)). lia. }
    destruct (Z.eqb_spec (Z.quot s 100) k); [lia|].
    symmetry. apply bool_decide_eq_false. lia.
Qed.

Lemma statusFor_family (code : Z) : Core.statusFor code = Core.familySeverity code.
Proof.
  unfold Core.statusFor, Core.familySeverity.
  rewrite (quot_family _ 2), (quot_family _ 4) by lia.
  repeat case_bool_decide; repeat case_decide; try reflexivity; lia.
Qed.

Lemma response_code_family (r : Legacy.Response) :
  Legacy.exc r = None ->
  Legacy.response_code r = Core.exitCode (Core.familySeverity (Legacy.resp_status r)).
Proof.
  intros E. unfold Legacy.response_code, Core.familySeverity. rewrite E.
  repeat case_decide; reflexivity.
Qed.

Lemma quotaCount_nonneg anns : 0 <= Core.quotaCount anns.
Proof. rewrite CoreFacts.quotaCount_distinct. unfold Core.loopCount. lia. Qed.

Lemma count_announcements_nonneg anns : 0 <= Legacy.count_announcements anns.
Proof. rewrite LegacyFacts.count_distinct. unfold Legacy.distinctCount. lia. Qed.

Lemma quotaResult_severity c anns :
  Core.status (Core.quotaResult c anns)
  = Core.quotaSeverity (Core.crit c) (Core.warn c) (Core.quotaCount anns).
Proof.
  unfold Core.quotaResult, Core.quotaSeverity.
  destruct (Z.gtb_spec (Core.crit c) 0),
    (Z.ltb_spec (Core.quotaCount anns) (Core.crit c));
    destruct (Z.gtb_spec (Core.warn c) 0),
      (Z.ltb_spec (Core.quotaCount anns) (Core.warn c));
    simpl; repeat case_decide; try reflexivity; lia.
Qed.

Lemma quota_result_severity args backend anns :
  Legacy.code (Legacy.quota_result args backend anns)
  = Core.exitCode
      (Core.quotaSeverity (Legacy.critical_fewer args) (Legacy.warn_fewer args)
         (Legacy.count_announcements anns)).
Proof.
  pose proof (count_announcements_nonneg anns).
  unfold Legacy.quota_result, Core.quotaSeverity.
  destruct (Z.ltb_spec (Legacy.count_announcements anns) (Legacy.critical_fewer args));
    [|destruct (Z.ltb_spec (Legacy.count_announcements anns) (Legacy.warn_fewer args))];
    simpl; repeat case_decide; try reflexivity; lia.
Qed.

(** The dedup rule along the list, for every reading of the token. *)
Lemma dedupCount_snoc `{Countable T} (token : Announcement -> option T)
  (anns : list Announcement) (a : Announcement) :
  Both.dedupCount token (anns ++ [a])
  = Both.dedupCount token anns + Both.dedupStep token anns a.
Proof.
  unfold Both.dedupCount, Both.dedupStep.
  rewrite List.filter_app, List.length_app, omap_app, list_to_set_app_L.
  cbn [List.filter omap list_omap].
  destruct (token a) as [t|].
  - rewrite bool_decide_eq_false_2 by discriminate. cbn [length].
    change (list_to_set [t]) with ({[t]} ∪ ∅ : gset T).
    rewrite union_empty_r_L.
    destruct (decide (t ∈ omap token anns)) as [Hin|Hin].
    + rewrite bool_decide_eq_true_2 by exact Hin.
      replace (list_to_set (omap token anns) ∪ {[t]})
        with (list_to_set (omap token anns) : gset T) by set_solver.
      lia.
    + rewrite bool_decide_eq_false_2 by exact Hin.
      rewrite size_union by set_solver. rewrite size_singleton. lia.
  - rewrite bool_decide_eq_true_2 by reflexivity. cbn [length].
    change (list_to_set []) with (∅ : gset T).
    rewrite union_empty_r_L. lia.
Qed.

(** Two readings that agree up to an injective renaming of the tokens
    count the same. *)
Lemma dedupCount_renamed `{Countable T} `{Countable U} (f : T -> U)
  (token : Announcement -> option T) (token' : Announcement -> option U)
  (anns : list Announcement) :
  Inj (=) (=) f ->
  Forall (fun a => token' a = f <$> token a) anns ->
  Both.dedupCount token' anns = Both.dedupCount token anns.
Proof.
  intros Hf. induction anns as [|a anns IH] using rev_ind; intros Hall.
  - reflexivity.
  - apply Forall_app in Hall as [Hanns Ha].
    apply Forall_inv in Ha.
    rewrite !dedupCount_snoc, IH by exact Hanns. f_equal.
    unfold Both.dedupStep. rewrite Ha.
    assert (E : omap token' anns = f <$> omap token anns).
    { clear -Hanns. induction anns as [|b anns IH]; [reflexivity|].
      apply Forall_cons in Hanns as [Hb Hanns].
      cbn [omap list_omap]. rewrite Hb, (IH Hanns).
      destruct (token b); reflexivity. }
    destruct (token a) as [t|]; cbn [fmap option_fmap option_map];
      [|reflexivity].
    rewrite E.
    destruct (decide (t ∈ omap token anns)) as [Hin|Hin].
    + rewrite !bool_decide_eq_true_2; [reflexivity|exact Hin|].
      apply list_elem_of_fmap. exists t. auto.
    + rewrite !bool_decide_eq_false_2; [reflexivity|exact Hin|].
      intros (t' & Et & Hin')%list_elem_of_fmap.
      apply Hf in Et. subst t'. contradiction.
Qed.

(** What [serverToken] returns, by the metadata. *)
Lemma serverToken_coreToken (a : Announcement) :
  Both.coreToken a
  = if String.eqb (Core.serverToken a) "" then None
    else Some (Core.serverToken a).
Proof.
  unfold Both.coreToken, Core.serverToken.
  destruct (Metadata a !! tokenkey) as [[s| | |]|]; reflexivity.
Qed.

Lemma coreToken_tokens (anns : list Announcement) :
  omap Both.coreToken anns = Core.tokens anns.
Proof.
  induction anns as [|a anns IH]; [reflexivity|].
  rewrite CoreFacts.tokens_cons. cbn [omap list_omap].
  rewrite serverToken_coreToken, IH.
  destruct (String.eqb (Core.serverToken a) ""); reflexivity.
Qed.

Lemma core_dedupCount (anns : list Announcement) :
  Core.quotaCount anns = Both.dedupCount Both.coreToken anns.
Proof.
  rewrite CoreFacts.quotaCount_distinct.
  unfold Core.loopCount, Both.dedupCount.
  rewrite coreToken_tokens. do 3 f_equal.
  apply filter_ext. intros a. unfold Core.untokened.
  rewrite serverToken_coreToken.
  destruct (String.eqb (Core.serverToken a) ""); reflexivity.
Qed.

Lemma legacyToken_tokens (anns : list Announcement) :
  omap Both.legacyToken anns = map Legacy.py_key (Legacy.tokens anns).
Proof.
  unfold Legacy.tokens, Both.legacyToken.
  induction anns as [|a anns IH]; [reflexivity|].
  cbn [omap list_omap]. rewrite IH.
  destruct (Metadata a !! tokenkey); reflexivity.
Qed.

Lemma legacy_dedupCount (anns : list Announcement) :
  Legacy.count_announcements anns = Both.dedupCount Both.legacyToken anns.
Proof.
  rewrite LegacyFacts.count_distinct.
  unfold Legacy.distinctCount, Both.dedupCount, Legacy.seenKeys.
  rewrite legacyToken_tokens. do 3 f_equal.
  apply filter_ext. intros a. unfold Legacy.untokened, Both.legacyToken.
  destruct (Metadata a !! tokenkey); reflexivity.
Qed.

Lemma plain_coreToken (a : Announcement) :
  Both.plain_token a = true ->
  Both.dedupToken a = JString <$> Both.coreToken a.
Proof.
  unfold Both.plain_token, Both.dedupToken, Both.coreToken.
  destruct (Metadata a !! tokenkey) as [[s| | |]|]; try discriminate;
    [|reflexivity].
  destruct (String.eqb s ""); [discriminate|reflexivity].
Qed.

Lemma plain_legacyToken (a : Announcement) :
  Both.plain_token a = true ->
  Both.dedupToken a = id <$> Both.legacyToken a.
Proof.
  unfold Both.plain_token, Both.dedupToken, Both.legacyToken.
  destruct (Metadata a !! tokenkey) as [[s| | |]|]; try discriminate;
    reflexivity.
Qed.

(** The claim on the count fails as it is stated: two announcements whose
    token is the same empty string count 2 for the core, and one token. *)
Lemma counts_by_dedup_token_fails : ~ Both.counts_by_dedup_token.
Proof.
  intros H.
  destruct (H [Examples.empty1; Examples.empty2]) as [Hcore _].
  vm_compute in Hcore. discriminate.
Qed.

(** C4.  The quota count of both programs is the number of announcements
    with no dedup token plus the number of distinct dedup tokens among the
    rest, and it grows along the list by the dedup rule: an announcement
    adds one when it has no token or on the first occurrence of its token,
    and nothing otherwise.  Which token an announcement has is read off its
    metadata: for the core it is the field under the token key when that is
    a string that is not empty (an empty string or any other value is no
    token), for the legacy script the field whatever its value, two values
    being one token when Python's [==] holds of them.  On a list where
    every field is missing or a string that is not empty both programs
    count by the field itself.  Tokens a, a and none count 2. *)
Theorem quota_count_dedup (anns : list Announcement) :
  Core.quotaCount anns = Both.dedupCount Both.coreToken anns
  /\ (forall a, Core.quotaCount (anns ++ [a])
                = Core.quotaCount anns + Both.dedupStep Both.coreToken anns a)
  /\ Legacy.count_announcements anns = Both.dedupCount Both.legacyToken anns
  /\ (forall a, Legacy.count_announcements (anns ++ [a])
                = Legacy.count_announcements anns
                  + Both.dedupStep Both.legacyToken anns a)
  /\ (Forall (fun a => Both.plain_token a = true) anns ->
      Core.quotaCount anns = Both.dedupCount Both.dedupToken anns
      /\ Legacy.count_announcements anns
         = Both.dedupCount Both.dedupToken anns)
  /\ Core.quotaCount [Examples.foo1; Examples.foo2; Examples.foo3] = 2
  /\ Legacy.count_announcements [Examples.foo1; Examples.foo2; Examples.foo3] = 2.
Proof.
  split; [apply core_dedupCount|].
  split; [intros a; rewrite !core_dedupCount; apply dedupCount_snoc|].
  split; [apply legacy_dedupCount|].
  split; [intros a; rewrite !legacy_dedupCount; apply dedupCount_snoc|].
  split; [|split; vm_compute; reflexivity].
  intros Hplain. split.
  - rewrite core_dedupCount. symmetry.
    apply (dedupCount_renamed JString).
    + intros s t E. injection E as ->. reflexivity.
    + eapply List.Forall_impl; [|exact Hplain]. apply plain_coreToken.
  - rewrite legacy_dedupCount. symmetry.
    apply (dedupCount_renamed id).
    + intros s t E. exact E.
    + eapply List.Forall_impl; [|exact Hplain]. apply plain_legacyToken.
Qed.

Lemma quota_count_dedup_witness :
  Core.quotaCount [Examples.foo3; Examples.foo1; Examples.foo2]
  = Both.dedupCount Both.dedupToken
      [Examples.foo3; Examples.foo1; Examples.foo2]
  /\ Legacy.count_announcements [Examples.foo3; Examples.foo1; Examples.foo2]
     = Both.dedupCount Both.dedupToken
         [Examples.foo3; Examples.foo1; Examples.foo2].
Proof.
  destruct (quota_count_dedup [Examples.foo3; Examples.foo1; Examples.foo2])
    as (_ & _ & _ & _ & H & _).
  apply H. repeat constructor.
Defined.

(** C5.  The quota result of both programs is critical when the critical
    threshold is positive and the count below it, else a warning when the
    warning threshold is positive and the count below it, else OK; a
    threshold of 0 never applies.  With thresholds 3 and 5 the counts 2, 4
    and 5 are critical, warning and OK. *)
Theorem quota_severity_by_thresholds (c : Core.check) (args : Legacy.Args)
  (backend : option string) (anns : list Announcement)
  (acc : Core.resultAccumulator) :
  Core.results (Core.checkQuota c anns acc)
  = Core.results acc ++ [Core.quotaResult c anns]
  /\ Core.status (Core.quotaResult c anns)
     = Core.quotaSeverity (Core.crit c) (Core.warn c) (Core.quotaCount anns)
  /\ Legacy.code (Legacy.quota_result args backend anns)
     = Core.exitCode
         (Core.quotaSeverity (Legacy.critical_fewer args)
            (Legacy.warn_fewer args) (Legacy.count_announcements anns))
  /\ (forall warn count, Core.quotaSeverity 0 warn count <> Core.StatusCrit)
  /\ (forall crit count, Core.quotaSeverity crit 0 count <> Core.StatusWarn)
  /\ Core.quotaSeverity 3 5 2 = Core.StatusCrit
  /\ Core.quotaSeverity 3 5 4 = Core.StatusWarn
  /\ Core.quotaSeverity 3 5 5 = Core.StatusOK.
Proof.
  split; [reflexivity|].
  split; [apply quotaResult_severity|].
  split; [apply quota_result_severity|].
  split; [|split; [|repeat split; reflexivity]].
  - intros warn count. unfold Core.quotaSeverity.
    repeat case_decide; try discriminate; lia.
  - intros crit count. unfold Core.quotaSeverity.
    repeat case_decide; try discriminate; lia.
Qed.

(** C6.  The severity of the result of an answered probe is that of the
    family of the status code and of nothing else: OK for 2xx, a warning for
    4xx, critical for every other status, the same for two codes of one
    family; so 200, 404, 500 and 301 are OK, warning, critical and
    critical. *)
Theorem probe_severity_by_family (ann : Announcement) (resp : Core.response)
  (args : Legacy.Args) (seen : gset string) (r : Legacy.Response) :
  Legacy.exc r = None ->
  Core.status (Core.announcementResult ann (Core.FetchOk resp))
  = Core.familySeverity (Core.statusCode resp)
  /\ Legacy.code (fst (Legacy.handle_response args seen r))
     = Core.exitCode (Core.familySeverity (Legacy.resp_status r))
  /\ (forall code code',
        Z.quot code 100 = Z.quot code' 100 ->
        Core.familySeverity code = Core.familySeverity code')
  /\ Core.familySeverity 200 = Core.StatusOK
  /\ Core.familySeverity 404 = Core.StatusWarn
  /\ Core.familySeverity 500 = Core.StatusCrit
  /\ Core.familySeverity 301 = Core.StatusCrit.
Proof.
  intros E. split; [apply statusFor_family|].
  split; [|split; [|repeat split; reflexivity]].
  - rewrite LegacyFacts.handle_response_code. apply response_code_family.
    exact E.
  - intros code code' Hq. rewrite <- !statusFor_family.
    unfold Core.statusFor. rewrite Hq. reflexivity.
Qed.

Lemma probe_severity_by_family_witness :
  Core.status (Core.announcementResult Examples.foo1
                 (Examples.answered Examples.foo1 503))
  = Core.StatusCrit
  /\ Legacy.code (fst (Legacy.handle_response (Examples.args 1 1) ∅
                         (Examples.response Examples.foo1 404)))
     = Legacy.WARN.
Proof.
  destruct (probe_severity_by_family Examples.foo1
              {| Core.respEndpoint := ServiceURI Examples.foo1 +:+ "health";
                 Core.contentType := "text/plain";
                 Core.body := "";
                 Core.statusCode := 503;
                 Core.duration := 12000000 |}
              (Examples.args 1 1) ∅ (Examples.response Examples.foo1 404))
    as (H1 & H2 & _).
  - reflexivity.
  - split.
    + unfold Examples.answered. rewrite H1. reflexivity.
    + rewrite H2. reflexivity.
Defined.

(** The claim on transport failures fails as stated: a refused connection
    is a critical result of the legacy script. *)
Lemma transport_failure_warns_fails : ~ transport_failure_warns.
Proof.
  intros [_ H].
  specialize (H (Examples.args 1 1) ∅ (Examples.refused Examples.foo1)
                Legacy.ConnectionError eq_refl).
  vm_compute in H. discriminate.
Qed.

(** C3.  A probe that fails in the transport is a warning of the core,
    with a message that names the announced URI and the error, and a critical
    result of the legacy script, for every exception it tells apart. *)
Theorem transport_failure_severity (ann : Announcement) (err : string)
  (args : Legacy.Args) (seen : gset string) (r : Legacy.Response)
  (e : Legacy.Exc) :
  Legacy.exc r = Some e ->
  Core.announcementResult ann (Core.FetchErr err)
  = {| Core.status := Core.StatusWarn;
       Core.message := "failed to fetch announced endpoint "
                       +:+ ServiceURI ann +:+ ": " +:+ err;
       Core.perf := [] |}
  /\ Legacy.code (fst (Legacy.handle_response args seen r)) = Legacy.CRIT
  /\ Legacy.announcement (fst (Legacy.handle_response args seen r))
     = Some (Legacy.resp_announcement r).
Proof.
  intros E. split; [reflexivity|]. split.
  - rewrite LegacyFacts.handle_response_code. unfold Legacy.response_code.
    rewrite E. reflexivity.
  - apply LegacyFacts.handle_response_ann.
Qed.

Lemma transport_failure_severity_witness :
  Core.status (Core.announcementResult Examples.foo1 (Core.FetchErr "timeout"))
  = Core.StatusWarn
  /\ Legacy.code (fst (Legacy.handle_response (Examples.args 1 1) ∅
                         (Examples.refused Examples.foo1)))
     = Legacy.CRIT.
Proof.
  destruct (transport_failure_severity Examples.foo1 "timeout"
              (Examples.args 1 1) ∅ (Examples.refused Examples.foo1)
              Legacy.ConnectionError eq_refl) as (H1 & H2 & _).
  split; [rewrite H1; reflexivity|exact H2].
Defined.

End BothFacts.

(** * The legacy script against the core *)

Module DuplicateFacts.
Import Both.

(** ** The counts under plain tokens *)

Lemma plain_serverToken a :
  plain_token a = true ->
  (Metadata a !! tokenkey = None /\ Core.serverToken a = "")
  \/ (exists s, s <> "" /\ Metadata a !! tokenkey = Some (JString s)
                /\ Core.serverToken a = s).
Proof.
  unfold plain_token, Core.serverToken.
  destruct (Metadata a !! tokenkey) as [[s| | |]|]; try discriminate.
  - intros H. right. exists s. apply negb_true_iff, String.eqb_neq in H. auto.
  - intros _. left. auto.
Qed.

Lemma plain_token_seen anns s :
  forallb plain_token anns = true -> s <> "" ->
  existsb (Legacy.py_eqb (JString s)) (Legacy.tokens anns)
  = bool_decide (s ∈ map Core.serverToken anns).
Proof.
  intros Hp Hs. induction anns as [|b anns IH].
  - symmetry. apply bool_decide_eq_false. simpl. apply not_elem_of_nil.
  - simpl in Hp. apply andb_true_iff in Hp as [Hb Hp]. specialize (IH Hp).
    rewrite LegacyFacts.legacy_tokens_cons. cbn [map].
    destruct (plain_serverToken b Hb) as [[E1 E2]|(t & Ht & E1 & E2)];
      rewrite E1, E2.
    + rewrite IH. apply bool_decide_ext. rewrite elem_of_cons.
      split; [auto|]. intros [E|H]; [congruence|exact H].
    + cbn [existsb]. rewrite IH. unfold Legacy.py_eqb. cbn [Legacy.py_key].
      destruct (decide (s = t)) as [->|Hne].
      * rewrite bool_decide_eq_true_2 by reflexivity. symmetry.
        apply bool_decide_eq_true. left.
      * rewrite bool_decide_eq_false_2 by congruence. cbn [orb].
        apply bool_decide_ext. rewrite elem_of_cons.
        split; [auto|]. intros [E|H]; [congruence|exact H].
Qed.

Lemma plain_contribution anns a :
  forallb plain_token anns = true -> plain_token a = true ->
  Core.contribution anns a = Legacy.contribution anns a.
Proof.
  intros Hp Ha. unfold Core.contribution, Legacy.contribution, Core.untokened.
  destruct (plain_serverToken a Ha) as [[E1 E2]|(t & Ht & E1 & E2)];
    rewrite E1, E2.
  - reflexivity.
  - apply String.eqb_neq in Ht as Ht'. rewrite Ht'.
    rewrite plain_token_seen by assumption. reflexivity.
Qed.

Lemma plain_counts anns :
  forallb plain_token anns = true ->
  Core.quotaCount anns = Legacy.count_announcements anns.
Proof.
  induction anns as [|a anns IH] using rev_ind; intros Hp.
  - reflexivity.
  - rewrite forallb_app in Hp. apply andb_true_iff in Hp as [Hp Ha].
    simpl in Ha. rewrite andb_true_r in Ha.
    rewrite CoreFacts.quotaCount_distinct, CoreFacts.loopCount_snoc.
    rewrite LegacyFacts.count_distinct, LegacyFacts.legacy_distinctCount_snoc.
    rewrite <- CoreFacts.quotaCount_distinct, <- LegacyFacts.count_distinct.
    rewrite IH by exact Hp. rewrite plain_contribution by assumption.
    reflexivity.
Qed.

(** ** The worst of the codes *)

Lemma worst_code_perm l1 l2 :
  Permutation l1 l2 -> worst_code l1 = worst_code l2.
Proof.
  unfold worst_code. induction 1; simpl; try lia.
Qed.

Lemma worst_code_nonneg l : 0 <= worst_code l.
Proof. unfold worst_code. induction l; simpl; lia. Qed.

Lemma worst_code_ge l x : In x l -> x <= worst_code l.
Proof.
  unfold worst_code. induction l as [|y l IH]; simpl; [contradiction|].
  intros [->|H]; [lia|]. specialize (IH H). lia.
Qed.

Lemma first_code_worst l :
  Legacy.code_sorted l -> l <> [] -> Forall (fun r => 0 <= Legacy.code r) l ->
  Legacy.first_code l = worst_code (map Legacy.code l).
Proof.
  intros Hs Hne Hpos. destruct l as [|r l]; [congruence|].
  inversion Hs as [|? ? _ Hr]; subst. inversion Hpos as [|? ? H0 Hpos']; subst.
  cbn [Legacy.first_code map]. unfold worst_code. cbn [fold_right].
  fold (worst_code (map Legacy.code l)).
  assert (worst_code (map Legacy.code l) <= Legacy.code r); [|lia].
  clear -Hr H0. induction Hr as [|x l Hx _ IH]; unfold worst_code in *; simpl; lia.
Qed.

Lemma exitCode_worseOf a b :
  produced a -> produced b ->
  Core.exitCode (Core.worseOf a b) = Z.max (Core.exitCode a) (Core.exitCode b)
  /\ produced (Core.worseOf a b).
Proof.
  intros [-> | [-> | ->]] [-> | [-> | ->]]; split; try reflexivity;
    unfold produced; simpl; auto.
Qed.

Lemma exitCode_fold l : forall w,
  produced w -> Forall produced l ->
  Core.exitCode (fold_left Core.worseOf l w)
  = Z.max (Core.exitCode w) (worst_code (map Core.exitCode l)).
Proof.
  induction l as [|x l IH]; intros w Hw Hl; simpl.
  - unfold worst_code. simpl. destruct Hw as [-> | [-> | ->]]; reflexivity.
  - inversion Hl as [|? ? Hx Hl']; subst.
    destruct (exitCode_worseOf w x Hw Hx) as [E Hp].
    rewrite IH by assumption. rewrite E. unfold worst_code. simpl. lia.
Qed.

(** ** The two runs *)

Lemma core_results c goroutines :
  Core.results (Core.run c goroutines Core.newAccumulator)
  = Core.quotaResult c (Core.matching c)
    :: (if Core.skipHealthcheck c then [] else Core.probeResults goroutines).
Proof. rewrite CoreFacts.run_addAll, CoreFacts.addAll_results. reflexivity. Qed.

Lemma core_worst c goroutines :
  Core.worstStatus (Core.run c goroutines Core.newAccumulator)
  = fold_left Core.worseOf
      (map Core.status
         (Core.quotaResult c (Core.matching c)
          :: (if Core.skipHealthcheck c then [] else Core.probeResults goroutines)))
      Core.StatusOK.
Proof. rewrite CoreFacts.run_addAll, CoreFacts.addAll_worst. reflexivity. Qed.

Lemma quotaSeverity_produced crit warn count :
  produced (Core.quotaSeverity crit warn count).
Proof.
  unfold Core.quotaSeverity, produced. repeat case_decide; auto.
Qed.

Lemma familySeverity_produced s : produced (Core.familySeverity s).
Proof.
  unfold Core.familySeverity, produced. repeat case_decide; auto.
Qed.

Lemma announcementResult_produced a f :
  produced (Core.status (Core.announcementResult a f)).
Proof.
  destruct f; simpl.
  - right. left. reflexivity.
  - rewrite BothFacts.statusFor_family. apply familySeverity_produced.
Qed.

Lemma core_probe_codes answer goroutines :
  Forall (core_agrees answer) goroutines ->
  (forall p, In p goroutines -> exists s, answer (fst p) = Answered s) ->
  map (fun r => Core.exitCode (Core.status r)) (Core.probeResults goroutines)
  = map (answer_code answer) (map fst goroutines).
Proof.
  intros Hag Hans. unfold Core.probeResults. rewrite !map_map.
  apply map_ext_in. intros p Hp.
  rewrite List.Forall_forall in Hag. specialize (Hag p Hp).
  destruct (Hans p Hp) as [s Hs]. unfold core_agrees in Hag.
  unfold answer_code. rewrite Hs in *.
  destruct (snd p) as [err|resp]; [contradiction|]. simpl.
  rewrite BothFacts.statusFor_family, Hag. reflexivity.
Qed.

Lemma legacy_probe_codes answer checks :
  Forall (legacy_agrees answer) checks ->
  map Legacy.response_code checks
  = map (answer_code answer) (map Legacy.resp_announcement checks).
Proof.
  intros Hag. rewrite map_map. apply map_ext_in. intros r Hr.
  rewrite List.Forall_forall in Hag. specialize (Hag r Hr).
  unfold legacy_agrees in Hag. unfold answer_code.
  destruct (answer (Legacy.resp_announcement r)) as [e|s].
  - unfold Legacy.response_code. rewrite Hag. reflexivity.
  - destruct Hag as [E1 E2]. rewrite BothFacts.response_code_family by exact E1.
    rewrite E2. reflexivity.
Qed.

Lemma gathered_not_stale args backend anns checks fresh :
  Legacy.scheduled anns checks ->
  (forall a, In a anns -> Legacy.ann_in a fresh = true) ->
  Forall (fun r => Legacy.stale fresh r = false)
    (Legacy.gathered args backend anns checks).
Proof.
  intros Hs Hl. unfold Legacy.gathered. constructor.
  - unfold Legacy.stale, Legacy.quota_result.
    destruct (_ <? _); [|destruct (_ <? _)]; reflexivity.
  - destruct (Legacy.do_healthcheck args); [|constructor].
    apply List.Forall_forall. intros r Hr.
    apply (in_map Legacy.announcement) in Hr.
    rewrite LegacyFacts.handle_all_anns in Hr.
    apply in_map_iff in Hr as (x & Hx & Hin).
    unfold Legacy.stale. rewrite <- Hx.
    rewrite Hl; [apply andb_false_r|].
    eapply Permutation_in; [exact Hs|]. apply in_map. exact Hin.
Qed.

Lemma legacy_run_listed args backend state checks second :
  Legacy.scheduled (Legacy.matching args state) checks ->
  still_listed args second (Legacy.matching args state) ->
  Legacy.run args (Legacy.DiscoveryState backend state) checks second
  = (Legacy.first_code (Legacy.collect args backend (Legacy.matching args state) checks),
     Legacy.collect args backend (Legacy.matching args state) checks).
Proof.
  intros Hs Hl. unfold Legacy.run. cbn [Legacy.get_announcements]. cbv zeta.
  set (pre := Legacy.collect args backend (Legacy.matching args state) checks).
  destruct ((Legacy.first_code pre =? 2) && Legacy.do_healthcheck args) eqn:E;
    [|reflexivity].
  apply andb_true_iff in E as [E _]. apply Z.eqb_eq in E.
  unfold still_listed in Hl.
  destruct second as [t|backend2 state2]; [contradiction|].
  cbn [Legacy.get_announcements] in Hl.
  assert (Hsorted : Legacy.code_sorted pre) by apply LegacyFacts.collect_sorted.
  rewrite (LegacyFacts.recheck_state args backend2 state2 pre Hsorted
             (LegacyFacts.codes_le_first pre Hsorted E)).
  cbv zeta.
  assert (Hns : Forall (fun r => Legacy.stale (Legacy.matching args state2) r
                                 = false) pre).
  { eapply Permutation_Forall.
    - symmetry. apply LegacyFacts.collect_perm.
    - apply gathered_not_stale; assumption. }
  destruct (LegacyFacts.stale_none_map _ _ Hns) as [-> ->]. reflexivity.
Qed.

(** The legacy script is no duplicate of the core: on one announcement
    whose endpoint refuses the connection the core ends with a warning and
    the legacy script exits critical. *)
Lemma behavioural_duplicate_fails : ~ behavioural_duplicate.
Proof.
  intros H.
  specialize (H (Examples.config [Examples.foo3] 1 1) (Examples.args 1 1) None
                (fun _ => Failed Legacy.ConnectionError)
                [(Examples.foo3, Core.FetchErr "connection refused")]
                [Examples.refused Examples.foo3]
                (Legacy.DiscoveryState None [Examples.foo3])).
  destruct H as [H _].
  - repeat split.
    + unfold Core.scheduled. reflexivity.
    + unfold Legacy.scheduled. reflexivity.
    + repeat constructor.
    + repeat constructor.
  - vm_compute in H. discriminate.
Qed.

(** C9.  On the same discovery state, configuration and answers of the
    probed endpoints, the legacy script exits with the code of the core's worst
    status and its results carry the same severities as the core's,
    provided that every matching announcement has a server token that is
    missing or a string that is not empty, that every probe is answered
    with a status, and that the second answer of the discovery server still
    lists every matching announcement. *)
Theorem duplicate_on_answered_probes (c : Core.check) (args : Legacy.Args)
  (backend : option string) (answer : Announcement -> Answer)
  (goroutines : list (Announcement * Core.fetched))
  (checks : list Legacy.Response) (second : Legacy.Discovery) :
  same_input c args answer goroutines checks ->
  forallb plain_token (Core.matching c) = true ->
  (forall a, In a (Core.matching c) -> exists s, answer a = Answered s) ->
  still_listed args second (Core.matching c) ->
  same_verdict c args backend goroutines checks second.
Proof.
  intros ((Hsvc & Hskip & Hwarn & Hcrit) & HsG & HsP & HaG & HaP) Hplain Hans Hl.
  assert (HM : Legacy.matching args (Core.discoveryState c) = Core.matching c).
  { unfold Legacy.matching, Core.matching. rewrite Hsvc. reflexivity. }
  unfold same_verdict. cbv zeta.
  rewrite legacy_run_listed by (rewrite HM; assumption).
  rewrite HM. cbn [fst snd].
  set (M := Core.matching c) in *.
  set (pre := Legacy.collect args backend M checks).
  (* the severities of the two lists of results *)
  assert (Hcodes :
    Permutation (map Legacy.code (Legacy.gathered args backend M checks))
      (map (fun r => Core.exitCode (Core.status r))
         (Core.results (Core.run c goroutines Core.newAccumulator)))).
  { rewrite core_results. fold M. unfold Legacy.gathered. cbn [map].
    rewrite BothFacts.quota_result_severity, BothFacts.quotaResult_severity.
    rewrite <- Hwarn, <- Hcrit, (plain_counts M Hplain).
    constructor. rewrite Hskip.
    destruct (Legacy.do_healthcheck args); [|reflexivity]. cbn [negb].
    rewrite LegacyFacts.handle_all_codes, (legacy_probe_codes answer) by exact HaP.
    rewrite (core_probe_codes answer).
    - apply Permutation_map. unfold Legacy.scheduled in HsP.
      unfold Core.scheduled in HsG. fold M in HsG. rewrite HsP, HsG. reflexivity.
    - exact HaG.
    - intros p Hp. apply Hans. eapply Permutation_in; [exact HsG|].
      apply in_map. exact Hp. }
  assert (Hpre : Permutation (map Legacy.code pre)
                   (map Legacy.code (Legacy.gathered args backend M checks))).
  { apply Permutation_map. apply LegacyFacts.collect_perm. }
  split; [|rewrite Hpre; exact Hcodes].
  (* the exit code is the worst code, and so is the code of the worst status *)
  rewrite first_code_worst.
  - rewrite (worst_code_perm _ _ Hpre), (worst_code_perm _ _ Hcodes).
    rewrite core_worst, core_results, exitCode_fold.
    + rewrite map_map. cbn [Core.exitCode].
      symmetry. apply Z.max_r. apply worst_code_nonneg.
    + left. reflexivity.
    + apply Forall_map. constructor.
      * rewrite BothFacts.quotaResult_severity. apply quotaSeverity_produced.
      * destruct (Core.skipHealthcheck c); [constructor|].
        unfold Core.probeResults. apply List.Forall_forall. intros r Hr.
        apply in_map_iff in Hr as (p & <- & _). apply announcementResult_produced.
  - apply LegacyFacts.collect_sorted.
  - intros E. rewrite E in Hpre. apply Permutation_nil in Hpre.
    discriminate Hpre.
  - eapply Permutation_Forall; [symmetry; apply LegacyFacts.collect_perm|].
    eapply List.Forall_impl; [|apply LegacyFacts.gathered_range].
    simpl. intros r Hr. lia.
Qed.

Lemma duplicate_on_answered_probes_witness :
  same_verdict (Examples.config Examples.state3 2 1) (Examples.args 2 1) None
    Examples.goroutines503 Examples.checks503
    (Legacy.DiscoveryState None Examples.state3).
Proof.
  apply (duplicate_on_answered_probes _ _ _ Examples.answers503).
  - repeat split.
    + unfold Core.scheduled. apply perm_swap.
    + unfold Legacy.scheduled. reflexivity.
    + repeat constructor.
    + repeat constructor.
  - reflexivity.
  - intros a [<- | [<- | []]]; eexists; reflexivity.
  - intros a [<- | [<- | []]]; vm_compute; reflexivity.
Defined.

(** End to end: two announcements of the service, thresholds 1 and 2, one
    endpoint answers 200 and the other 503, and the discovery server still
    lists both: the quota is OK and both programs end critical. *)
Lemma end_to_end_critical :
  Core.status (Core.quotaResult (Examples.config Examples.state3 2 1)
                 (Core.matching (Examples.config Examples.state3 2 1)))
  = Core.StatusOK
  /\ Core.worstStatus (Core.run (Examples.config Examples.state3 2 1)
                         Examples.goroutines503 Core.newAccumulator)
     = Core.StatusCrit
  /\ fst (Legacy.run (Examples.args 2 1)
            (Legacy.DiscoveryState None Examples.state3)
            Examples.checks503
            (Legacy.DiscoveryState None Examples.state3))
     = Legacy.CRIT.
Proof. repeat split; vm_compute; reflexivity. Qed.

(** Each of the provisos is needed.  Without the one on the tokens: two
    announcements with the empty string as token count twice for the core
    and once for the legacy script, which then is below a threshold of 2. *)
Lemma plain_tokens_needed :
  ~ (forall c args backend answer goroutines checks second,
       same_input c args answer goroutines checks ->
       (forall a, In a (Core.matching c) -> exists s, answer a = Answered s) ->
       still_listed args second (Core.matching c) ->
       same_verdict c args backend goroutines checks second).
Proof.
  intros H.
  specialize (H (Examples.config [Examples.empty1; Examples.empty2] 2 2)
                (Examples.args 2 2) None (fun _ => Answered 200)
                [(Examples.empty1, Examples.answered Examples.empty1 200);
                 (Examples.empty2, Examples.answered Examples.empty2 200)]
                [Examples.response Examples.empty1 200;
                 Examples.response Examples.empty2 200]
                (Legacy.DiscoveryState None [Examples.empty1; Examples.empty2])).
  destruct H as [H _].
  - repeat split.
    + unfold Core.scheduled. reflexivity.
    + unfold Legacy.scheduled. reflexivity.
    + repeat constructor.
    + repeat constructor.
  - intros a _. eexists. reflexivity.
  - intros a [<- | [<- | []]]; vm_compute; reflexivity.
  - vm_compute in H. discriminate.
Qed.

(** Without the one on the second answer: when it has lost the
    announcement of the one critical result the legacy script exits with a
    warning, where the core ends critical. *)
Lemma listing_needed :
  ~ (forall c args backend answer goroutines checks second,
       same_input c args answer goroutines checks ->
       forallb plain_token (Core.matching c) = true ->
       (forall a, In a (Core.matching c) -> exists s, answer a = Answered s) ->
       same_verdict c args backend goroutines checks second).
Proof.
  intros H.
  specialize (H (Examples.config Examples.state3 2 1) (Examples.args 2 1) None
                Examples.answers503 Examples.goroutines503 Examples.checks503
                (Legacy.DiscoveryState None [Examples.foo1])).
  destruct H as [H _].
  - repeat split.
    + unfold Core.scheduled. apply perm_swap.
    + unfold Legacy.scheduled. reflexivity.
    + repeat constructor.
    + repeat constructor.
  - reflexivity.
  - intros a _. eexists. reflexivity.
  - vm_compute in H. discriminate.
Qed.
End DuplicateFacts.

(** * Further properties of the Go core *)

Module CoreExtra.
Import Core.

Lemma worst_in (l : list Status) : forall w,
  In (fold_left worseOf l w) (w :: l).
Proof.
  induction l as [|x l IH]; intros w; simpl; [auto|].
  destruct (IH (worseOf w x)) as [E|H].
  - assert (Hw : worseOf w x = w \/ worseOf w x = x)
      by (unfold worseOf; destruct (_ >? _); auto).
    destruct Hw as [E'|E']; [left|right; left]; rewrite <- E; symmetry;
      exact E'.
  - right. right. exact H.
Qed.

Lemma worst_dominates (l : list Status) : forall w,
  statusToOrd w <= statusToOrd (fold_left worseOf l w)
  /\ Forall (fun s => statusToOrd s <= statusToOrd (fold_left worseOf l w)) l.
Proof.
  induction l as [|x l IH]; intros w; simpl.
  - split; [lia|constructor].
  - destruct (IH (worseOf w x)) as [H1 H2]. rewrite CoreFacts.worseOf_ord in H1.
    split; [lia|]. constructor; [lia|exact H2].
Qed.

(** X1.  The accumulator keeps the results in the order in which they were
    added, and its worst status is the maximum of theirs: starting from
    [newAccumulator] it is OK or the status of a stored result, no stored
    status ranks above it, and one more [add] never lowers its rank nor
    touches the results stored before. *)
Theorem accumulator_worst_is_max (l : list result) (r : result) :
  results (addAll l newAccumulator) = l
  /\ In (worstStatus (addAll l newAccumulator)) (StatusOK :: map status l)
  /\ Forall (fun x => statusToOrd (status x)
                      <= statusToOrd (worstStatus (addAll l newAccumulator))) l
  /\ statusToOrd (worstStatus (addAll l newAccumulator))
     <= statusToOrd (worstStatus (add (addAll l newAccumulator) r))
  /\ results (add (addAll l newAccumulator) r) = l ++ [r].
Proof.
  rewrite CoreFacts.addAll_worst, CoreFacts.addAll_results. cbn [newAccumulator
    worstStatus results app].
  split; [reflexivity|]. split; [apply worst_in|]. split; [|split].
  - destruct (worst_dominates (map status l) StatusOK) as [_ H].
    rewrite Forall_map in H. exact H.
  - cbn [add worstStatus]. rewrite CoreFacts.addAll_worst, CoreFacts.worseOf_ord.
    cbn [newAccumulator worstStatus]. lia.
  - cbn [add results]. rewrite CoreFacts.addAll_results. reflexivity.
Qed.

Lemma quotaResult_perf c anns :
  perf (quotaResult c anns) = [More.instances (quotaCount anns)].
Proof.
  unfold quotaResult. destruct (_ && _); [|destruct (_ && _)]; reflexivity.
Qed.

Lemma probeResults_perf trace : concat (map perf (probeResults trace)) = [].
Proof.
  unfold probeResults. induction trace as [|[a f] t IH]; simpl; [reflexivity|].
  destruct f; simpl; exact IH.
Qed.

(** X2.  What a run hands to the nagios check: the worst status, exactly
    one perf datum, the count of the instances, and the messages with the
    quota message first and the messages of the probes after it in the
    order in which the probes completed. *)
Theorem updateCheck_after_run (c : check)
  (trace : list (Announcement * fetched)) :
  updateCheck (run c trace newAccumulator)
  = (worstStatus (run c trace newAccumulator),
     [More.instances (quotaCount (matching c))],
     message (quotaResult c (matching c))
     :: (if skipHealthcheck c then []
         else map (fun p => message (announcementResult (fst p) (snd p)))
                trace)).
Proof.
  unfold updateCheck. rewrite CoreFacts.run_addAll at 2 3.
  rewrite CoreFacts.addAll_results. cbn [newAccumulator results app map concat].
  rewrite quotaResult_perf. f_equal; [f_equal|].
  - destruct (skipHealthcheck c); [reflexivity|].
    rewrite probeResults_perf. reflexivity.
  - f_equal. destruct (skipHealthcheck c); [reflexivity|].
    unfold probeResults. rewrite map_map. reflexivity.
Qed.

Lemma produced_worst (l : list Status) : forall w,
  Both.produced w -> Forall Both.produced l ->
  Both.produced (fold_left worseOf l w).
Proof.
  intros w Hw Hl. destruct (worst_in l w) as [<-|H]; [exact Hw|].
  rewrite List.Forall_forall in Hl. apply Hl. exact H.
Qed.

Lemma worst_crit (l : list Status) :
  Forall Both.produced l ->
  fold_left worseOf l StatusOK = StatusCrit <-> In StatusCrit l.
Proof.
  intros Hl. split.
  - intros E. destruct (worst_in l StatusOK) as [H|H];
      rewrite E in H; [discriminate|exact H].
  - intros Hin. destruct (worst_dominates l StatusOK) as [_ Hd].
    rewrite List.Forall_forall in Hd. specialize (Hd _ Hin).
    pose proof (produced_worst l StatusOK (or_introl eq_refl) Hl) as Hp.
    destruct Hp as [E | [E | E]]; rewrite E in *; simpl in Hd; try lia.
    reflexivity.
Qed.

Lemma worst_ok (l : list Status) :
  Forall Both.produced l ->
  fold_left worseOf l StatusOK = StatusOK <-> Forall (eq StatusOK) l.
Proof.
  intros Hl. split.
  - intros E. destruct (worst_dominates l StatusOK) as [_ Hd]. rewrite E in Hd.
    rewrite List.Forall_forall in *. intros s Hs.
    specialize (Hd s Hs). destruct (Hl s Hs) as [-> | [-> | ->]];
      simpl in Hd; try lia. reflexivity.
  - clear Hl. induction 1 as [|x l <- _ IH]; simpl; [reflexivity|exact IH].
Qed.

Lemma probe_status_crit p :
  status (announcementResult (fst p) (snd p)) = StatusCrit
  <-> More.answered_as StatusCrit p.
Proof.
  unfold More.answered_as. destruct (snd p) as [err|resp]; simpl.
  - split; [discriminate|contradiction].
  - rewrite BothFacts.statusFor_family. reflexivity.
Qed.

Lemma probe_status_ok p :
  StatusOK = status (announcementResult (fst p) (snd p))
  <-> More.answered_as StatusOK p.
Proof.
  unfold More.answered_as. destruct (snd p) as [err|resp]; simpl.
  - split; [discriminate|contradiction].
  - rewrite BothFacts.statusFor_family. split; intros H; symmetry; exact H.
Qed.

(** X3.  The worst status of a run from a new accumulator is OK, WARN or
    CRIT, never UNKNOWN.  It is CRIT exactly when the quota is critical or,
    with the healthcheck on, some probe was answered with a status outside
    2xx and 4xx: a probe that failed in the transport never makes the run
    critical.  It is OK exactly when the quota is OK and, with the
    healthcheck on, every probe was answered with a 2xx status. *)
Theorem run_verdict (c : check) (trace : list (Announcement * fetched)) :
  Both.produced (worstStatus (run c trace newAccumulator))
  /\ (worstStatus (run c trace newAccumulator) = StatusCrit
      <-> status (quotaResult c (matching c)) = StatusCrit
          \/ (skipHealthcheck c = false
              /\ Exists (More.answered_as StatusCrit) trace))
  /\ (worstStatus (run c trace newAccumulator) = StatusOK
      <-> status (quotaResult c (matching c)) = StatusOK
          /\ (skipHealthcheck c = true
              \/ Forall (More.answered_as StatusOK) trace)).
Proof.
  rewrite DuplicateFacts.core_worst.
  set (l := map status
              (quotaResult c (matching c)
               :: (if skipHealthcheck c then [] else probeResults trace))).
  assert (Hl : Forall Both.produced l).
  { subst l. apply Forall_map. constructor.
    - rewrite BothFacts.quotaResult_severity.
      apply DuplicateFacts.quotaSeverity_produced.
    - destruct (skipHealthcheck c); [constructor|].
      unfold probeResults. apply List.Forall_forall. intros r Hr.
      apply in_map_iff in Hr as (p & <- & _).
      apply DuplicateFacts.announcementResult_produced. }
  split; [apply produced_worst; [left; reflexivity|exact Hl]|].
  split.
  - rewrite (worst_crit l Hl). subst l. cbn [map In].
    destruct (skipHealthcheck c); cbn [map In].
    + split; [intros [H|[]]; left; exact H|].
      intros [H|[H _]]; [left; exact H|discriminate].
    + unfold probeResults. rewrite map_map, in_map_iff, List.Exists_exists.
      split.
      * intros [H|(p & Hp & Hin)]; [left; exact H|].
        right. split; [reflexivity|]. exists p. split; [exact Hin|].
        apply probe_status_crit. exact Hp.
      * intros [H|[_ (p & Hin & Hp)]]; [left; exact H|].
        right. exists p. split; [|exact Hin]. apply probe_status_crit. exact Hp.
  - rewrite (worst_ok l Hl). subst l. cbn [map].
    rewrite List.Forall_cons_iff.
    destruct (skipHealthcheck c); cbn [map].
    + split; [intros [H _]; split; [symmetry; exact H|left; reflexivity]|].
      intros [H _]. split; [symmetry; exact H|constructor].
    + unfold probeResults. rewrite map_map, Forall_map. split.
      * intros [H Hall]. split; [symmetry; exact H|]. right.
        eapply List.Forall_impl; [|exact Hall]. intros p. apply probe_status_ok.
      * intros [H [Hd|Hall]]; [discriminate|]. split; [symmetry; exact H|].
        eapply List.Forall_impl; [|exact Hall]. intros p. apply probe_status_ok.
Qed.

End CoreExtra.

(** * Further properties of the quota count *)

Module CountExtra.

Lemma core_contribution_range l a : 0 <= Core.contribution l a <= 1.
Proof.
  unfold Core.contribution. destruct (Core.untokened a); [lia|].
  destruct (bool_decide _); lia.
Qed.

Lemma legacy_contribution_range l a : 0 <= Legacy.contribution l a <= 1.
Proof.
  unfold Legacy.contribution. destruct (Metadata a !! tokenkey); [|lia].
  destruct (existsb _ _); lia.
Qed.

Lemma core_count_snoc l a :
  Core.quotaCount (l ++ [a]) = Core.quotaCount l + Core.contribution l a.
Proof.
  rewrite !CoreFacts.quotaCount_distinct. apply CoreFacts.loopCount_snoc.
Qed.

Lemma legacy_count_snoc l a :
  Legacy.count_announcements (l ++ [a])
  = Legacy.count_announcements l + Legacy.contribution l a.
Proof.
  rewrite !LegacyFacts.count_distinct. apply LegacyFacts.legacy_distinctCount_snoc.
Qed.

Lemma core_count_app l more :
  Core.quotaCount l <= Core.quotaCount (l ++ more)
  <= Core.quotaCount l + Z.of_nat (length more).
Proof.
  induction more as [|a more IH] using rev_ind.
  - rewrite app_nil_r. simpl. lia.
  - rewrite app_assoc, core_count_snoc, List.length_app. simpl.
    pose proof (core_contribution_range (l ++ more) a). lia.
Qed.

Lemma legacy_count_app l more :
  Legacy.count_announcements l <= Legacy.count_announcements (l ++ more)
  <= Legacy.count_announcements l + Z.of_nat (length more).
Proof.
  induction more as [|a more IH] using rev_ind.
  - rewrite app_nil_r. simpl. lia.
  - rewrite app_assoc, legacy_count_snoc, List.length_app. simpl.
    pose proof (legacy_contribution_range (l ++ more) a). lia.
Qed.

(** X4.  The count of both programs lies between 0 and the number of
    announcements, and is 0 only for the empty list: one announcement
    always counts 1. *)
Theorem count_bounds (anns : list Announcement) :
  0 <= Core.quotaCount anns <= Z.of_nat (length anns)
  /\ (Core.quotaCount anns = 0 <-> anns = [])
  /\ 0 <= Legacy.count_announcements anns <= Z.of_nat (length anns)
  /\ (Legacy.count_announcements anns = 0 <-> anns = []).
Proof.
  pose proof (core_count_app [] anns) as Hc.
  pose proof (legacy_count_app [] anns) as Hl.
  cbn [app] in Hc, Hl.
  change (Core.quotaCount []) with 0 in Hc.
  change (Legacy.count_announcements []) with 0 in Hl.
  split; [lia|]. split; [|split; [lia|]].
  - split; [|intros ->; reflexivity].
    destruct anns as [|a rest]; [reflexivity|]. intros E. exfalso.
    pose proof (core_count_app [a] rest) as H1. cbn [app] in H1.
    pose proof (core_count_snoc [] a) as H2. cbn [app] in H2.
    assert (Core.contribution [] a = 1).
    { unfold Core.contribution. destruct (Core.untokened a); reflexivity. }
    change (Core.quotaCount []) with 0 in H2. lia.
  - split; [|intros ->; reflexivity].
    destruct anns as [|a rest]; [reflexivity|]. intros E. exfalso.
    pose proof (legacy_count_app [a] rest) as H1. cbn [app] in H1.
    pose proof (legacy_count_snoc [] a) as H2. cbn [app] in H2.
    assert (Legacy.contribution [] a = 1).
    { unfold Legacy.contribution. destruct (Metadata a !! tokenkey); reflexivity. }
    change (Legacy.count_announcements []) with 0 in H2. lia.
Qed.

Lemma filter_length_perm {A} (f : A -> bool) (l1 l2 : list A) :
  Permutation l1 l2 -> length (List.filter f l1) = length (List.filter f l2).
Proof.
  induction 1 as [|x l l' _ IH|x y l|l l' l'' _ IH1 _ IH2]; simpl.
  - reflexivity.
  - destruct (f x); simpl; congruence.
  - destruct (f x), (f y); reflexivity.
  - congruence.
Qed.

Lemma filter_perm {A} (f : A -> bool) (l1 l2 : list A) :
  Permutation l1 l2 -> Permutation (List.filter f l1) (List.filter f l2).
Proof.
  induction 1 as [|x l l' _ IH|x y l|l l' l'' _ IH1 _ IH2]; simpl.
  - reflexivity.
  - destruct (f x); [constructor|]; exact IH.
  - destruct (f x), (f y); try reflexivity. apply perm_swap.
  - etransitivity; eassumption.
Qed.

Lemma omap_perm {A B} (f : A -> option B) (l1 l2 : list A) :
  Permutation l1 l2 -> Permutation (omap f l1) (omap f l2).
Proof.
  induction 1 as [|x l l' _ IH|x y l|l l' l'' _ IH1 _ IH2]; simpl.
  - reflexivity.
  - destruct (f x); [constructor|]; exact IH.
  - destruct (f x), (f y); try reflexivity. apply perm_swap.
  - etransitivity; eassumption.
Qed.

(** X5.  The count of both programs does not depend on the order of the
    announcements. *)
Theorem count_order_independent (l1 l2 : list Announcement) :
  Permutation l1 l2 ->
  Core.quotaCount l1 = Core.quotaCount l2
  /\ Legacy.count_announcements l1 = Legacy.count_announcements l2.
Proof.
  intros Hp. rewrite !CoreFacts.quotaCount_distinct, !LegacyFacts.count_distinct.
  unfold Core.loopCount, Legacy.distinctCount. split.
  - rewrite (filter_length_perm _ _ _ Hp).
    assert (E : (list_to_set (Core.tokens l1) : gset string)
                = list_to_set (Core.tokens l2)).
    { apply list_to_set_perm_L. unfold Core.tokens.
      apply filter_perm, Permutation_map, Hp. }
    rewrite E. reflexivity.
  - rewrite (filter_length_perm _ _ _ Hp).
    assert (E : Legacy.seenKeys (Legacy.tokens l1)
                = Legacy.seenKeys (Legacy.tokens l2)).
    { unfold Legacy.seenKeys. apply list_to_set_perm_L.
      apply Permutation_map. unfold Legacy.tokens. apply omap_perm, Hp. }
    rewrite E. reflexivity.
Qed.

Lemma count_order_independent_witness :
  Core.quotaCount [Examples.foo1; Examples.foo2; Examples.foo3]
  = Core.quotaCount [Examples.foo3; Examples.foo1; Examples.foo2]
  /\ Legacy.count_announcements [Examples.foo1; Examples.foo2; Examples.foo3]
     = Legacy.count_announcements [Examples.foo3; Examples.foo1; Examples.foo2].
Proof.
  apply count_order_independent.
  apply Permutation_sym, (Permutation_cons_append [Examples.foo1; Examples.foo2]).
Defined.

Lemma quotaSeverity_antitone crit warn count count' :
  count <= count' ->
  Core.statusToOrd (Core.quotaSeverity crit warn count')
  <= Core.statusToOrd (Core.quotaSeverity crit warn count)
  /\ Core.exitCode (Core.quotaSeverity crit warn count')
     <= Core.exitCode (Core.quotaSeverity crit warn count).
Proof.
  intros H. unfold Core.quotaSeverity. repeat case_decide; simpl; lia.
Qed.

(** X6.  More announcements never make the quota worse: when a list holds
    the announcements of another and more, in any order, its count is at
    least the other's and at most that plus the number of the added ones,
    and the quota result of both programs is at most as severe. *)
Theorem more_instances_never_worse (c : Core.check) (args : Legacy.Args)
  (backend : option string) (anns more bigger : list Announcement) :
  Permutation bigger (anns ++ more) ->
  Core.quotaCount anns <= Core.quotaCount bigger
    <= Core.quotaCount anns + Z.of_nat (length more)
  /\ Legacy.count_announcements anns <= Legacy.count_announcements bigger
     <= Legacy.count_announcements anns + Z.of_nat (length more)
  /\ Core.statusToOrd (Core.status (Core.quotaResult c bigger))
     <= Core.statusToOrd (Core.status (Core.quotaResult c anns))
  /\ Legacy.code (Legacy.quota_result args backend bigger)
     <= Legacy.code (Legacy.quota_result args backend anns).
Proof.
  intros Hp. destruct (count_order_independent _ _ Hp) as [Ec El].
  pose proof (core_count_app anns more) as Hc.
  pose proof (legacy_count_app anns more) as Hl.
  rewrite <- Ec in Hc. rewrite <- El in Hl.
  split; [exact Hc|]. split; [exact Hl|]. split.
  - rewrite !BothFacts.quotaResult_severity.
    apply quotaSeverity_antitone. lia.
  - rewrite !BothFacts.quota_result_severity.
    apply quotaSeverity_antitone. lia.
Qed.

Lemma more_instances_never_worse_witness :
  Core.quotaCount [Examples.foo1]
  <= Core.quotaCount [Examples.foo3; Examples.foo1; Examples.foo2]
  <= Core.quotaCount [Examples.foo1] + 2.
Proof.
  apply (more_instances_never_worse (Examples.config [] 2 1) (Examples.args 2 1)
           None [Examples.foo1] [Examples.foo2; Examples.foo3]).
  exact (Permutation_cons_append [Examples.foo1; Examples.foo2] Examples.foo3).
Defined.

Lemma string_token_seen l s :
  s <> "" -> s ∈ map Core.serverToken l ->
  existsb (Legacy.py_eqb (JString s)) (Legacy.tokens l) = true.
Proof.
  intros Hs. induction l as [|b l IH]; cbn [map].
  - intros H. apply elem_of_nil in H. contradiction.
  - rewrite elem_of_cons, LegacyFacts.legacy_tokens_cons. intros [E|H].
    + unfold Core.serverToken in E.
      destruct (Metadata b !! tokenkey) as [[t| | |]|]; try congruence.
      subst t. cbn [existsb]. unfold Legacy.py_eqb.
      rewrite bool_decide_eq_true_2 by reflexivity. reflexivity.
    + specialize (IH H). destruct (Metadata b !! tokenkey); [|exact IH].
      cbn [existsb]. rewrite IH. apply orb_true_r.
Qed.

Lemma contribution_le l a : Legacy.contribution l a <= Core.contribution l a.
Proof.
  pose proof (legacy_contribution_range l a) as Hr.
  unfold Core.contribution, Core.untokened.
  destruct (String.eqb_spec (Core.serverToken a) "") as [E|E]; [lia|].
  destruct (decide (Core.serverToken a ∈ map Core.serverToken l)) as [Hin|Hin].
  - rewrite bool_decide_eq_true_2 by exact Hin.
    unfold Legacy.contribution. unfold Core.serverToken in *.
    destruct (Metadata a !! tokenkey) as [[t| | |]|]; try congruence.
    rewrite (string_token_seen l t E Hin). lia.
  - rewrite bool_decide_eq_false_2 by exact Hin. lia.
Qed.

(** X7.  The legacy script never counts more instances than the core on
    the same announcements, since it also merges the tokens the core reads
    as none (an empty string, a value that is no string); so with the same
    thresholds its quota result is at least as severe as the core's. *)
Theorem legacy_count_le_core (c : Core.check) (args : Legacy.Args)
  (backend : option string) (anns : list Announcement) :
  Core.crit c = Legacy.critical_fewer args ->
  Core.warn c = Legacy.warn_fewer args ->
  Legacy.count_announcements anns <= Core.quotaCount anns
  /\ Core.exitCode (Core.status (Core.quotaResult c anns))
     <= Legacy.code (Legacy.quota_result args backend anns).
Proof.
  intros Hc Hw.
  assert (Hle : Legacy.count_announcements anns <= Core.quotaCount anns).
  { induction anns as [|a anns IH] using rev_ind; [reflexivity|].
    rewrite core_count_snoc, legacy_count_snoc.
    pose proof (contribution_le anns a). lia. }
  split; [exact Hle|].
  rewrite BothFacts.quotaResult_severity, BothFacts.quota_result_severity.
  rewrite Hc, Hw. apply quotaSeverity_antitone. exact Hle.
Qed.

Lemma legacy_count_le_core_witness :
  Legacy.count_announcements [Examples.empty1; Examples.empty2]
  <= Core.quotaCount [Examples.empty1; Examples.empty2].
Proof.
  apply (legacy_count_le_core (Examples.config [] 2 2) (Examples.args 2 2) None);
    reflexivity.
Defined.

(** X8.  When no announcement of the discovery state has the service type,
    the run of the core adds exactly one result, the quota result with
    count 0 and no probe, whatever the healthcheck switch: it is critical
    when the critical threshold is positive, with the message that names
    the service and that threshold, else a warning when the warning
    threshold is positive, else OK. *)
Theorem run_without_instances (c : Core.check)
  (trace : list (Announcement * Core.fetched)) :
  Forall (fun a => ServiceType a <> Core.service c) (Core.discoveryState c) ->
  Core.scheduled c trace ->
  trace = []
  /\ Core.results (Core.run c trace Core.newAccumulator)
     = [Core.quotaResult c []]
  /\ Core.quotaCount [] = 0
  /\ Core.worstStatus (Core.run c trace Core.newAccumulator)
     = (if decide (Core.crit c > 0) then Core.StatusCrit
        else if decide (Core.warn c > 0) then Core.StatusWarn
        else Core.StatusOK)
  /\ (Core.crit c > 0 ->
      Core.message (Core.quotaResult c [])
      = "0 instances of " +:+ Core.service c +:+ " found, expected at least "
        +:+ pretty (Core.crit c)).
Proof.
  intros Hnone Hs.
  assert (HM : Core.matching c = []).
  { unfold Core.matching. induction Hnone as [|a l Ha _ IH]; [reflexivity|].
    simpl. apply String.eqb_neq in Ha. rewrite Ha. exact IH. }
  unfold Core.scheduled in Hs. rewrite HM in Hs.
  apply Permutation_sym, Permutation_nil in Hs.
  assert (Ht : trace = []) by (destruct trace; [reflexivity|discriminate]).
  subst trace. split; [reflexivity|].
  rewrite DuplicateFacts.core_results, DuplicateFacts.core_worst, HM.
  split; [destruct (Core.skipHealthcheck c); reflexivity|].
  split; [reflexivity|]. split.
  - assert (E : map Core.status
                  (Core.quotaResult c []
                   :: (if Core.skipHealthcheck c then []
                       else Core.probeResults []))
                = [Core.status (Core.quotaResult c [])])
      by (destruct (Core.skipHealthcheck c); reflexivity).
    rewrite E. cbn [fold_left].
    rewrite BothFacts.quotaResult_severity.
    change (Core.quotaCount []) with 0. unfold Core.quotaSeverity.
    repeat case_decide; try reflexivity; lia.
  - intros Hc. unfold Core.quotaResult. change (Core.quotaCount []) with 0.
    destruct (Z.gtb_spec (Core.crit c) 0); [|lia].
    destruct (Z.ltb_spec 0 (Core.crit c)); [|lia]. reflexivity.
Qed.

Lemma run_without_instances_witness :
  Core.worstStatus (Core.run (Examples.config [Examples.bar1] 1 1) []
                      Core.newAccumulator)
  = Core.StatusCrit.
Proof.
  destruct (run_without_instances (Examples.config [Examples.bar1] 1 1) [])
    as (_ & _ & _ & H & _).
  - repeat constructor. discriminate.
  - unfold Core.scheduled. reflexivity.
  - rewrite H. reflexivity.
Defined.

End CountExtra.

(** * Further properties of the legacy script *)

Module LegacyExtra.
Import Legacy.

Lemma sort_singleton r : sort_results [r] = [r].
Proof. reflexivity. Qed.

(** X9.  With the healthcheck off the legacy run never probes and never asks
    the discovery server a second time: whatever the responses and the
    second answer, it prints the quota result alone and exits with its
    code. *)
Theorem run_without_healthcheck (args : Args) (backend : option string)
  (state : list Announcement) (checks : list Response) (second : Discovery) :
  do_healthcheck args = false ->
  run args (DiscoveryState backend state) checks second
  = (code (quota_result args backend (matching args state)),
     [quota_result args backend (matching args state)]).
Proof.
  intros Hhc.
  assert (E : collect args backend (matching args state) checks
              = [quota_result args backend (matching args state)]).
  { unfold collect. rewrite Hhc. reflexivity. }
  rewrite LegacyFacts.run_without_recheck; rewrite E; [reflexivity|].
  rewrite Hhc. apply andb_false_r.
Qed.

Lemma run_without_healthcheck_witness :
  fst (run {| service := "foo"; do_healthcheck := false;
              timeout_3f := "5.000"; critical_fewer := 2; warn_fewer := 3 |}
         (DiscoveryState None [Examples.foo1])
         [Examples.refused Examples.foo1] (DiscoveryRaised "Traceback"))
  = CRIT.
Proof.
  rewrite run_without_healthcheck by reflexivity. reflexivity.
Defined.

Lemma collect_nonempty args backend anns checks :
  collect args backend anns checks <> [].
Proof.
  intros E. pose proof (LegacyFacts.collect_perm args backend anns checks) as H.
  rewrite E in H. apply Permutation_nil in H. discriminate H.
Qed.

Lemma recheck_result_code fresh r :
  code (recheck_result fresh r) = if stale fresh r then 1 else code r.
Proof. unfold recheck_result. destruct (stale fresh r); reflexivity. Qed.

Lemma stale_critical fresh r : stale fresh r = true -> code r = 2.
Proof.
  unfold stale. intros H. apply andb_true_iff in H as [H _].
  apply Z.eqb_eq. exact H.
Qed.

Lemma no_stale_map fresh l :
  List.filter (stale fresh) l = [] -> map (recheck_result fresh) l = l.
Proof.
  induction l as [|r l IH]; simpl; [reflexivity|].
  unfold recheck_result at 1. destruct (stale fresh r); [discriminate|].
  intros H. rewrite IH by exact H. reflexivity.
Qed.

(** The exit code after a re-check that was answered. *)
Lemma recheck_exit args backend2 state2 pre :
  code_sorted pre -> first_code pre = 2 ->
  first_code (recheck args (DiscoveryState backend2 state2) pre)
  = if existsb (fun r => (code r =? 2) && negb (stale (matching args state2) r))
         pre
    then 2 else 1.
Proof.
  intros Hs H2. pose proof (LegacyFacts.codes_le_first pre Hs H2) as Hle.
  rewrite (LegacyFacts.recheck_state args backend2 state2 pre Hs Hle). cbv zeta.
  set (fresh := matching args state2).
  set (n := Z.of_nat (length (List.filter (stale fresh) pre))).
  set (keeps := fun r => (code r =? 2) && negb (stale fresh r)).
  destruct (Z.eqb_spec n 0) as [En|En].
  - (* nothing is stale *)
    assert (Hnil : List.filter (stale fresh) pre = []).
    { subst n. destruct (List.filter (stale fresh) pre); [reflexivity|].
      simpl in En. lia. }
    rewrite (no_stale_map fresh pre Hnil), H2.
    destruct pre as [|r0 l0]; [discriminate|]. simpl in H2.
    assert (Hk : keeps r0 = true).
    { subst keeps. cbn beta. rewrite H2. simpl.
      simpl in Hnil. destruct (stale fresh r0); [discriminate|reflexivity]. }
    cbn [existsb]. rewrite Hk. reflexivity.
  - set (final := map (recheck_result fresh) pre
                  ++ [downgrade_summary n backend2]).
    assert (Hsum : In (downgrade_summary n backend2) (sort_results final)).
    { eapply Permutation_in; [symmetry; apply LegacyFacts.sort_results_perm|].
      apply in_or_app. right. left. reflexivity. }
    pose proof (LegacyFacts.first_code_max _ _
                  (LegacyFacts.sort_results_sorted final) Hsum) as Hge.
    change (code (downgrade_summary n backend2)) with 1 in Hge.
    destruct (LegacyFacts.first_code_in (sort_results final)) as (x & Hx & Ex).
    { intros E. rewrite E in Hsum. contradiction. }
    apply (Permutation_in _ (LegacyFacts.sort_results_perm final)) in Hx.
    rewrite List.Forall_forall in Hle.
    destruct (existsb keeps pre) eqn:Ek.
    + apply existsb_exists in Ek as (r & Hr & Hk). subst keeps. cbn beta in Hk.
      apply andb_true_iff in Hk as [Hc Hst]. apply Z.eqb_eq in Hc.
      apply negb_true_iff in Hst.
      assert (Hin : In r (sort_results final)).
      { eapply Permutation_in; [symmetry; apply LegacyFacts.sort_results_perm|].
        apply in_or_app. left. apply in_map_iff. exists r.
        unfold recheck_result. rewrite Hst. auto. }
      pose proof (LegacyFacts.first_code_max _ _
                    (LegacyFacts.sort_results_sorted final) Hin) as Hr2.
      assert (code x <= 2).
      { apply in_app_or in Hx as [Hx|[<-|[]]]; [|simpl; lia].
        apply in_map_iff in Hx as (y & <- & Hy). rewrite recheck_result_code.
        specialize (Hle y Hy). destruct (stale fresh y); lia. }
      lia.
    + assert (code x <= 1); [|lia].
      apply in_app_or in Hx as [Hx|[<-|[]]]; [|simpl; lia].
      apply in_map_iff in Hx as (y & <- & Hy). rewrite recheck_result_code.
      destruct (stale fresh y) eqn:Est; [lia|].
      specialize (Hle y Hy).
      destruct (Z.eq_dec (code y) 2) as [E2|E2]; [|lia].
      exfalso. rewrite <- not_true_iff_false in Ek. apply Ek.
      apply existsb_exists. exists y. split; [exact Hy|].
      subst keeps. cbn beta. rewrite E2, Est. reflexivity.
Qed.

(** The results of a run that re-checks, whatever the second answer of the
    discovery server: there is at least one, the codes are 0, 1 or 2, and
    none is larger than the first. *)
Lemma recheck_worst_first args second pre :
  code_sorted pre -> first_code pre = 2 ->
  Forall (fun r => 0 <= code r <= 2) pre ->
  recheck args second pre <> []
  /\ first_code (recheck args second pre) <= 2
  /\ Forall (fun r => 0 <= code r <= first_code (recheck args second pre))
       (recheck args second pre).
Proof.
  intros Hs H2 Hr.
  assert (Hle : Forall (fun r => code r <= 2) pre).
  { eapply List.Forall_impl; [|exact Hr]. cbn beta. intros r H. lia. }
  assert (Hne : pre <> []) by (intros E; rewrite E in H2; discriminate).
  destruct second as [traceback|backend2 state2].
  - unfold recheck. cbn [get_announcements].
    split; [intros E; apply app_eq_nil in E as [_ E]; discriminate|].
    replace (first_code (pre ++ [recheck_failure traceback])) with 2
      by (destruct pre; [contradiction|symmetry; exact H2]).
    split; [lia|]. apply Forall_app. split; [exact Hr|].
    constructor; [|constructor]. cbn. lia.
  - rewrite (LegacyFacts.recheck_state args backend2 state2 pre Hs Hle).
    cbv zeta. set (fresh := matching args state2).
    set (n := Z.of_nat (length (List.filter (stale fresh) pre))).
    destruct (Z.eqb_spec n 0) as [En|En].
    + assert (Hnil : List.filter (stale fresh) pre = []).
      { subst n. destruct (List.filter (stale fresh) pre); [reflexivity|].
        simpl in En. lia. }
      rewrite (no_stale_map fresh pre Hnil), H2.
      split; [exact Hne|]. split; [lia|exact Hr].
    + set (final := map (recheck_result fresh) pre
                    ++ [downgrade_summary n backend2]).
      assert (Hfinal : Forall (fun r => 0 <= code r <= 2) final).
      { apply Forall_app. split.
        - apply List.Forall_forall. intros r Hin.
          apply in_map_iff in Hin as (r0 & <- & Hin0).
          rewrite List.Forall_forall in Hr. specialize (Hr r0 Hin0).
          rewrite recheck_result_code. destruct (stale fresh r0); lia.
        - constructor; [|constructor]. cbn. lia. }
      assert (Hne' : sort_results final <> []).
      { intros E.
        pose proof (LegacyFacts.sort_results_perm final) as Hp.
        rewrite E in Hp. apply Permutation_nil in Hp.
        apply app_eq_nil in Hp as [_ Hp]. discriminate. }
      split; [exact Hne'|]. split.
      * destruct (LegacyFacts.first_code_in _ Hne') as (r & Hin & ->).
        apply (Permutation_in _ (LegacyFacts.sort_results_perm final)) in Hin.
        rewrite List.Forall_forall in Hfinal. apply Hfinal. exact Hin.
      * pose proof (LegacyFacts.sorted_codes_le _
                      (LegacyFacts.sort_results_sorted final)) as Hmax.
        rewrite List.Forall_forall in Hmax, Hfinal.
        apply List.Forall_forall. intros r Hin. split.
        -- apply Hfinal.
           apply (Permutation_in _ (LegacyFacts.sort_results_perm final)).
           exact Hin.
        -- apply Hmax. exact Hin.
Qed.

(** X10.  What [Main.run] returns.  When the first [get_announcements]
    raises it returns 3 and no result is printed.  When it is answered and
    [run] returns, at least one result is printed, and the value returned
    is the code of the first of them, which is 0, 1 or 2 and the worst code
    printed, after a re-check as well: no printed result has a larger
    code.  An exception that escapes [run] after the first fetch is not a
    return of [run]; it ends in the handler at the bottom of the script,
    which stands outside these definitions. *)
Theorem run_returns_worst_code (args : Args) (first : Discovery)
  (checks : list Response) (second : Discovery) :
  match first with
  | DiscoveryRaised _ => run args first checks second = (3, [])
  | DiscoveryState _ _ =>
      snd (run args first checks second) <> []
      /\ fst (run args first checks second)
         = first_code (snd (run args first checks second))
      /\ 0 <= fst (run args first checks second) <= 2
      /\ Forall (fun r => 0 <= code r <= fst (run args first checks second))
           (snd (run args first checks second))
  end.
Proof.
  destruct first as [t|backend state]; [reflexivity|].
  unfold run. cbn [get_announcements]. cbv zeta.
  set (pre := collect args backend (matching args state) checks).
  assert (Hs : code_sorted pre) by apply LegacyFacts.collect_sorted.
  assert (Hr : Forall (fun r => 0 <= code r <= 2) pre)
    by apply LegacyFacts.collect_range.
  assert (Hne : pre <> []) by apply collect_nonempty.
  assert (H : (if (first_code pre =? 2) && do_healthcheck args
               then recheck args second pre else pre) <> []
              /\ first_code (if (first_code pre =? 2) && do_healthcheck args
                             then recheck args second pre else pre) <= 2
              /\ Forall (fun r => 0 <= code r
                                  <= first_code
                                       (if (first_code pre =? 2)
                                           && do_healthcheck args
                                        then recheck args second pre
                                        else pre))
                   (if (first_code pre =? 2) && do_healthcheck args
                    then recheck args second pre else pre)).
  { destruct ((first_code pre =? 2) && do_healthcheck args) eqn:E.
    - apply andb_true_iff in E as [E _]. apply Z.eqb_eq in E.
      apply recheck_worst_first; assumption.
    - split; [exact Hne|].
      pose proof (LegacyFacts.sorted_codes_le pre Hs) as Hmax.
      rewrite List.Forall_forall in Hmax, Hr. split.
      { destruct (LegacyFacts.first_code_in pre Hne) as (r & Hin & ->).
        apply Hr. exact Hin. }
      apply List.Forall_forall. intros r Hin. split.
      + apply Hr. exact Hin.
      + apply Hmax. exact Hin. }
  destruct H as (Hne' & Hle & Hall). cbn [fst snd].
  split; [exact Hne'|]. split; [reflexivity|]. split; [|exact Hall].
  split; [|exact Hle].
  destruct (LegacyFacts.first_code_in _ Hne') as (r & Hin & ->).
  rewrite List.Forall_forall in Hall. apply Hall. exact Hin.
Qed.

(** X11.  A legacy run that re-checks never exits OK.  When the second
    [get_announcements] is answered, it exits critical exactly when some
    critical result is not downgraded, because it has no announcement, as
    the quota result, or because its announcement is still listed, and with
    a warning otherwise. *)
Theorem recheck_exit_code (args : Args) (backend : option string)
  (state : list Announcement) (checks : list Response)
  (backend2 : option string) (state2 : list Announcement) :
  do_healthcheck args = true ->
  first_code (collect args backend (matching args state) checks) = CRIT ->
  fst (run args (DiscoveryState backend state) checks
         (DiscoveryState backend2 state2))
  = (if existsb (fun r => (code r =? 2)
                          && negb (stale (matching args state2) r))
          (collect args backend (matching args state) checks)
     then CRIT else WARN)
  /\ (code (quota_result args backend (matching args state)) = CRIT ->
      fst (run args (DiscoveryState backend state) checks
             (DiscoveryState backend2 state2)) = CRIT).
Proof.
  intros Hhc Hcrit. unfold CRIT, WARN in *.
  set (pre := collect args backend (matching args state) checks) in *.
  assert (Hs : code_sorted pre) by apply LegacyFacts.collect_sorted.
  assert (Hrun : fst (run args (DiscoveryState backend state) checks
                        (DiscoveryState backend2 state2))
                 = first_code (recheck args (DiscoveryState backend2 state2) pre)).
  { unfold run. cbn [get_announcements]. cbv zeta. fold pre.
    rewrite Hcrit, Hhc. reflexivity. }
  rewrite Hrun, (recheck_exit args backend2 state2 pre Hs Hcrit).
  split; [reflexivity|].
  intros Hq.
  assert (Hin : In (quota_result args backend (matching args state)) pre).
  { eapply Permutation_in; [symmetry; apply LegacyFacts.collect_perm|].
    left. reflexivity. }
  assert (Hk : existsb (fun r => (code r =? 2)
                                 && negb (stale (matching args state2) r)) pre
               = true).
  { apply existsb_exists. eexists. split; [exact Hin|].
    rewrite Hq. cbn [Z.eqb Pos.eqb andb]. apply negb_true_iff.
    unfold stale, quota_result.
    destruct (_ <? _); [|destruct (_ <? _)]; reflexivity. }
  rewrite Hk. reflexivity.
Qed.

Lemma recheck_exit_code_witness :
  fst (run (Examples.args 2 1)
         (DiscoveryState None Examples.state3) Examples.checks503
         (DiscoveryState None Examples.state3))
  = CRIT.
Proof.
  destruct (recheck_exit_code (Examples.args 2 1) None Examples.state3
              Examples.checks503 None Examples.state3) as [H _].
  - reflexivity.
  - vm_compute. reflexivity.
  - rewrite H. vm_compute. reflexivity.
Defined.

Lemma ann_eqb_refl a : ann_eqb a a = true.
Proof.
  unfold ann_eqb. rewrite !String.eqb_refl.
  rewrite bool_decide_eq_true_2 by reflexivity. reflexivity.
Qed.

Lemma ann_in_In a l : In a l -> ann_in a l = true.
Proof.
  intros H. unfold ann_in. apply existsb_exists. exists a.
  split; [exact H|apply ann_eqb_refl].
Qed.

(** X12.  A re-check that finds every probed announcement still registered
    changes nothing: when the second answer of the discovery server holds
    all the matching announcements of the first, the legacy run prints the
    results of the first pass unchanged and exits with the code of the
    worst of them, without any downgrade. *)
Theorem recheck_unchanged_discovery (args : Args) (backend : option string)
  (state : list Announcement) (checks : list Response)
  (backend2 : option string) (state2 : list Announcement) :
  scheduled (matching args state) checks ->
  (forall a, In a (matching args state) -> In a state2) ->
  run args (DiscoveryState backend state) checks
    (DiscoveryState backend2 state2)
  = (first_code (collect args backend (matching args state) checks),
     collect args backend (matching args state) checks).
Proof.
  intros Hs Hsub. apply DuplicateFacts.legacy_run_listed; [exact Hs|].
  unfold Both.still_listed. cbn [get_announcements].
  intros a Ha. apply ann_in_In. unfold matching in *.
  apply filter_In. split; [apply Hsub; exact Ha|].
  apply filter_In in Ha as [_ Ha]. exact Ha.
Qed.

Lemma recheck_unchanged_discovery_witness :
  run (Examples.args 2 1) (DiscoveryState None Examples.state3)
    Examples.checks503 (DiscoveryState (Some "disco-2") Examples.state3)
  = (CRIT, collect (Examples.args 2 1) None
             (matching (Examples.args 2 1) Examples.state3)
             Examples.checks503).
Proof.
  rewrite recheck_unchanged_discovery.
  - reflexivity.
  - unfold scheduled. reflexivity.
  - intros a Ha. unfold matching in Ha. apply filter_In in Ha as [Ha _].
    exact Ha.
Defined.

(** X13.  The loop of the re-check works on the critical results at the
    head of the list only: on any list, sorted or not, it turns the stale
    ones among them into warnings, counts them, and leaves everything from
    the first result that is not critical as it stands, a stale critical
    result behind it included. *)
Theorem downgrade_loop_prefix (fresh : list Announcement)
  (crits rest : list Result) (downgraded : Z) :
  Forall (fun r => code r = 2) crits ->
  match rest with
  | [] => True
  | r :: _ => code r <> 2
  end ->
  downgrade_loop fresh (crits ++ rest) downgraded
  = (map (recheck_result fresh) crits ++ rest,
     downgraded + Z.of_nat (length (List.filter (stale fresh) crits))).
Proof.
  intros Hc Hrest. revert downgraded.
  induction Hc as [|r l Hr _ IH]; intros d.
  - cbn [app map List.filter length]. rewrite Z.add_0_r.
    destruct rest as [|x rest]; [reflexivity|].
    cbn [downgrade_loop]. apply Z.eqb_neq in Hrest. rewrite Hrest. reflexivity.
  - cbn [app downgrade_loop map List.filter]. rewrite Hr.
    cbn [Z.eqb Pos.eqb negb]. unfold recheck_result at 1.
    destruct (announcement r) as [a|] eqn:Ea.
    + destruct (ann_in a fresh) eqn:Ein; cbn [negb].
      * assert (Hst : stale fresh r = false)
          by (unfold stale; rewrite Ea, Ein; apply andb_false_r).
        rewrite Hst, IH. reflexivity.
      * assert (Hst : stale fresh r = true)
          by (unfold stale; rewrite Ea, Ein, Hr; reflexivity).
        rewrite Hst, IH. unfold downgrade. rewrite Ea. cbn [length].
        f_equal. lia.
    + assert (Hst : stale fresh r = false)
        by (unfold stale; rewrite Ea; apply andb_false_r).
      rewrite Hst, IH. reflexivity.
Qed.

Lemma downgrade_loop_prefix_witness :
  downgrade_loop []
    ([] ++ [Result_init 1 "results" "" None;
            Result_init 2 "health" "" (Some Examples.foo1)]) 0
  = ([Result_init 1 "results" "" None;
      Result_init 2 "health" "" (Some Examples.foo1)], 0).
Proof.
  apply (downgrade_loop_prefix [] []
           [Result_init 1 "results" "" None;
            Result_init 2 "health" "" (Some Examples.foo1)] 0).
  - constructor.
  - discriminate.
Defined.

(** X14.  The legacy run never drops a response: the results of the first
    pass are the quota result, which has no announcement, and with the
    healthcheck on exactly one result for each response, tied to the
    announcement of that response; their codes are 0, 1 or 2 and the worst
    code comes first. *)
Theorem collect_one_result_each (args : Args) (backend : option string)
  (announcements : list Announcement) (checks : list Response) :
  Permutation
    (map announcement (collect args backend announcements checks))
    (None :: (if do_healthcheck args
              then map (fun r => Some (resp_announcement r)) checks
              else []))
  /\ Permutation
       (map code (collect args backend announcements checks))
       (code (quota_result args backend announcements)
        :: (if do_healthcheck args then map response_code checks else []))
  /\ Forall (fun r => 0 <= code r <= 2)
       (collect args backend announcements checks)
  /\ Forall (fun r => code r
                      <= first_code (collect args backend announcements checks))
       (collect args backend announcements checks).
Proof.
  pose proof (LegacyFacts.collect_perm args backend announcements checks) as Hp.
  split; [|split; [|split]].
  - rewrite (Permutation_map announcement Hp). unfold gathered. cbn [map].
    assert (E : announcement (quota_result args backend announcements) = None).
    { unfold quota_result. destruct (_ <? _); [|destruct (_ <? _)]; reflexivity. }
    rewrite E. constructor. destruct (do_healthcheck args); [|reflexivity].
    rewrite LegacyFacts.handle_all_anns. reflexivity.
  - rewrite (Permutation_map code Hp). unfold gathered. cbn [map].
    constructor. destruct (do_healthcheck args); [|reflexivity].
    rewrite LegacyFacts.handle_all_codes. reflexivity.
  - apply LegacyFacts.collect_range.
  - apply LegacyFacts.sorted_codes_le, LegacyFacts.collect_sorted.
Qed.

Lemma handle_response_seen args seen r :
  snd (handle_response args seen r)
  = if More.recorded r then {[ resp_body r ]} ∪ seen else seen.
Proof.
  unfold handle_response, More.recorded.
  destruct (exc r) as [[]|]; try reflexivity.
  unfold make_response_result.
  destruct (Z.eqb_spec (resp_status r / 100) 2) as [E|E]; cbn [negb].
  - reflexivity.
  - assert (Hc : negb ((if resp_status r / 100 =? 4 then 1 else 2) =? 0) = true)
      by (destruct (_ =? 4); reflexivity).
    rewrite Hc. destruct (decide (resp_body r ∈ seen)) as [Hin|Hin].
    + rewrite bool_decide_eq_true_2 by exact Hin. cbn [snd]. set_solver.
    + rewrite bool_decide_eq_false_2 by exact Hin. reflexivity.
Qed.

Lemma bodies_cons r l :
  More.bodies (r :: l)
  = (if More.recorded r then {[ resp_body r ]} else ∅) ∪ More.bodies l.
Proof.
  unfold More.bodies. cbn [List.filter]. destruct (More.recorded r).
  - reflexivity.
  - set_solver.
Qed.

Lemma handle_all_seen args checks : forall seen,
  snd (handle_all args seen checks) = seen ∪ More.bodies checks.
Proof.
  induction checks as [|r checks IH]; intros seen.
  - unfold More.bodies. simpl. set_solver.
  - cbn [handle_all]. pose proof (handle_response_seen args seen r) as Hs.
    destruct (handle_response args seen r) as [res seen1]. cbn [snd] in Hs.
    specialize (IH seen1). destruct (handle_all args seen1 checks) as [rs seen2].
    cbn [snd] in *. rewrite IH, Hs, bodies_cons.
    destruct (More.recorded r); set_solver.
Qed.

Lemma handle_all_nth args before r after : forall seen,
  nth_error (fst (handle_all args seen (before ++ r :: after))) (length before)
  = Some (fst (handle_response args (seen ∪ More.bodies before) r)).
Proof.
  induction before as [|b before IH]; intros seen.
  - cbn [app length handle_all].
    replace (seen ∪ More.bodies []) with seen by (unfold More.bodies; set_solver).
    destruct (handle_response args seen r) as [res seen1].
    destruct (handle_all args seen1 after) as [rs seen2]. reflexivity.
  - cbn [app length handle_all].
    pose proof (handle_response_seen args seen b) as Hs.
    destruct (handle_response args seen b) as [res seen1]. cbn [snd] in Hs.
    specialize (IH seen1).
    destruct (handle_all args seen1 (before ++ r :: after)) as [rs seen2].
    cbn [fst nth_error] in *. rewrite IH. do 3 f_equal.
    rewrite Hs, bodies_cons. destruct (More.recorded b); set_solver.
Qed.

(** X16.  The legacy script records the bodies of the responses answered
    with a status outside 2xx, and of no others: after the loop over the
    responses the set holds what it held plus these bodies.  The result of
    a response is the one [handle_response] builds with the set of the
    bodies recorded before it; when its own body is recorded there, its
    message is only the duplicate note with its URI, and a response that
    is not recorded yields the same result whatever the set. *)
Theorem duplicate_bodies_once (args : Args) (seen : gset string)
  (before : list Response) (r : Response) (after : list Response) :
  snd (handle_all args seen (before ++ r :: after))
  = seen ∪ More.bodies (before ++ r :: after)
  /\ nth_error (fst (handle_all args seen (before ++ r :: after)))
       (length before)
     = Some (fst (handle_response args (seen ∪ More.bodies before) r))
  /\ (More.recorded r = true ->
      resp_body r ∈ seen ∪ More.bodies before ->
      fst (handle_response args (seen ∪ More.bodies before) r)
      = Result_init (if resp_status r / 100 =? 4 then 1 else 2) "health"
          (" <duplicate '" +:+ uri r +:+ "'>") (Some (resp_announcement r)))
  /\ (More.recorded r = false ->
      fst (handle_response args (seen ∪ More.bodies before) r)
      = fst (handle_response args ∅ r)).
Proof.
  split; [apply handle_all_seen|]. split; [apply handle_all_nth|]. split.
  - unfold More.recorded, handle_response. destruct (exc r); [discriminate|].
    intros Hrec Hin. apply negb_true_iff in Hrec. rewrite Hrec.
    unfold make_response_result.
    assert (Hc : negb ((if resp_status r / 100 =? 4 then 1 else 2) =? 0) = true)
      by (destruct (_ =? 4); reflexivity).
    rewrite Hc, bool_decide_eq_true_2 by exact Hin. reflexivity.
  - unfold More.recorded, handle_response.
    destruct (exc r) as [[]|]; try reflexivity.
    intros Hrec. apply negb_false_iff in Hrec. rewrite Hrec. reflexivity.
Qed.

Lemma duplicate_bodies_once_witness :
  message (fst (handle_response (Examples.args 1 1)
                  (∅ ∪ More.bodies [Examples.response Examples.foo1 503])
                  (Examples.response Examples.foo3 503)))
  = "health critical:  <duplicate 'http://foo3.example.com/health'>".
Proof.
  destruct (duplicate_bodies_once (Examples.args 1 1) ∅
              [Examples.response Examples.foo1 503]
              (Examples.response Examples.foo3 503) [])
    as (_ & _ & H & _).
  rewrite H.
  - reflexivity.
  - reflexivity.
  - vm_compute. reflexivity.
Defined.

End LegacyExtra.

(** * The sort of the legacy results *)

Module SortExtra.
Import Legacy.

Lemma ltb_lt a b : String.ltb a b = true <-> OrderedTypeEx.String_as_OT.lt a b.
Proof.
  unfold String.ltb. rewrite <- OrderedTypeEx.String_as_OT.cmp_lt.
  unfold OrderedTypeEx.String_as_OT.cmp.
  destruct (String.compare a b); split; congruence.
Qed.

Lemma ltb_irrefl a : String.ltb a a = false.
Proof.
  apply not_true_iff_false. rewrite ltb_lt. intros H.
  apply OrderedTypeEx.String_as_OT.lt_not_eq in H. apply H. reflexivity.
Qed.

Lemma nltb_cases a b :
  String.ltb a b = false -> a = b \/ String.ltb b a = true.
Proof.
  unfold String.ltb. rewrite (String.compare_antisym b a).
  destruct (String.compare a b) eqn:E; intros H; try discriminate.
  - left. apply String.compare_eq_iff. exact E.
  - right. reflexivity.
Qed.

Lemma ltb_asym a b : String.ltb a b = true -> String.ltb b a = false.
Proof.
  unfold String.ltb. rewrite (String.compare_antisym a b).
  destruct (String.compare b a); intros H; try discriminate; reflexivity.
Qed.

Lemma nltb_trans a b c :
  String.ltb a b = false -> String.ltb b c = false -> String.ltb a c = false.
Proof.
  intros H1 H2.
  destruct (nltb_cases a b H1) as [->|Hba]; [exact H2|].
  destruct (nltb_cases b c H2) as [->|Hcb]; [exact H1|].
  apply ltb_asym. apply ltb_lt.
  eapply OrderedTypeEx.String_as_OT.lt_trans; apply ltb_lt; eassumption.
Qed.

Lemma key_ltb_false x y :
  key_ltb x y = false <->
  code y < code x \/ (code y = code x /\ String.ltb (message x) (message y) = false).
Proof.
  unfold key_ltb. rewrite orb_false_iff, andb_false_iff.
  rewrite Z.ltb_ge, Z.eqb_neq. split.
  - intros [H1 [H2|H2]]; [left; lia|].
    destruct (Z.eq_dec (code y) (code x)); [right; auto|left; lia].
  - intros [H|[H1 H2]]; (split; [lia|]); [left; lia|right; exact H2].
Qed.

Lemma key_nltb_trans x y z :
  key_ltb x y = false -> key_ltb y z = false -> key_ltb x z = false.
Proof.
  rewrite !key_ltb_false. intros [H1|[H1 H1']] [H2|[H2 H2']].
  - left. lia.
  - left. lia.
  - left. lia.
  - right. split; [lia|]. eapply nltb_trans; eassumption.
Qed.

Lemma key_ltb_asym x y : key_ltb x y = true -> key_ltb y x = false.
Proof.
  unfold key_ltb. rewrite orb_true_iff, andb_true_iff, Z.ltb_lt, Z.eqb_eq.
  intros [H|[H1 H2]]; apply key_ltb_false.
  - left. exact H.
  - right. split; [exact H1|]. apply ltb_asym. exact H2.
Qed.

Lemma same_key_not_ltb k x y :
  More.same_key k x = true -> More.same_key k y = true -> key_ltb x y = false.
Proof.
  unfold More.same_key. rewrite !andb_true_iff, !Z.eqb_eq, !String.eqb_eq.
  intros [C1 M1] [C2 M2]. apply key_ltb_false. right.
  split; [congruence|]. rewrite M1, M2. apply ltb_irrefl.
Qed.

Lemma sort_insert_key_sorted x l :
  More.key_sorted l -> More.key_sorted (sort_insert x l).
Proof.
  unfold More.key_sorted. induction 1 as [|y l Hl IH Hy]; simpl.
  - repeat constructor.
  - destruct (key_ltb x y) eqn:E.
    + constructor; [exact IH|].
      eapply Permutation_Forall; [symmetry; apply LegacyFacts.sort_insert_perm|].
      constructor; [apply key_ltb_asym; exact E|exact Hy].
    + constructor; [constructor; assumption|].
      constructor; [exact E|].
      eapply List.Forall_impl; [|exact Hy]. simpl. intros z Hz.
      eapply key_nltb_trans; eassumption.
Qed.

Lemma sort_insert_stable k x l :
  List.filter (More.same_key k) (sort_insert x l)
  = List.filter (More.same_key k) (x :: l).
Proof.
  induction l as [|y l IH]; [reflexivity|].
  cbn [sort_insert]. destruct (key_ltb x y) eqn:E; [|reflexivity].
  cbn [List.filter] in *. rewrite IH.
  destruct (More.same_key k x) eqn:Ex, (More.same_key k y) eqn:Ey;
    try reflexivity.
  rewrite (same_key_not_ltb k x y Ex Ey) in E. discriminate.
Qed.

Lemma sort_insert_head x l :
  Forall (fun y => key_ltb x y = false) l -> sort_insert x l = x :: l.
Proof.
  intros H. destruct H as [|y l Hy _]; [reflexivity|].
  simpl. rewrite Hy. reflexivity.
Qed.

Lemma sort_sorted_id l : More.key_sorted l -> sort_results l = l.
Proof.
  unfold More.key_sorted. induction 1 as [|x l Hl IH Hx]; [reflexivity|].
  simpl. rewrite IH. apply sort_insert_head. exact Hx.
Qed.

(** X15.  The sort of the legacy results returns the same results, largest
    key (code, then message) first, and keeps the order of the results
    with equal keys; sorting again changes nothing.  A stable sort is fixed
    by these properties, so the insertion that computes it here stands for
    the sort of the interpreter. *)
Theorem sort_results_stable_sorted (l : list Result) :
  Permutation (sort_results l) l
  /\ More.key_sorted (sort_results l)
  /\ (forall k, List.filter (More.same_key k) (sort_results l)
                = List.filter (More.same_key k) l)
  /\ sort_results (sort_results l) = sort_results l.
Proof.
  assert (Hs : More.key_sorted (sort_results l)).
  { induction l as [|x l IH]; simpl; [constructor|].
    apply sort_insert_key_sorted. exact IH. }
  split; [apply LegacyFacts.sort_results_perm|]. split; [exact Hs|]. split.
  - intros k. induction l as [|x l IH]; [reflexivity|].
    cbn [sort_results fold_right]. rewrite sort_insert_stable.
    cbn [List.filter]. fold (sort_results l). rewrite IH.
    + reflexivity.
    + clear -l. induction l as [|y l IHl]; simpl; [constructor|].
      apply sort_insert_key_sorted. exact IHl.
  - apply sort_sorted_id. exact Hs.
Qed.

End SortExtra.

(** * The command line of the Go program *)

Module CliFacts.
Import Cli.

Lemma index_colon_cons c s :
  String.index 0 ":" (String c s)
  = if Ascii.eqb c ":" then Some 0%nat
    else option_map S (String.index 0 ":" s).
Proof.
  cbn [String.index].
  assert (Hp : String.prefix ":" (String c s) = Ascii.eqb c ":").
  { assert (H0 : String.prefix "" s = true) by (destruct s; reflexivity).
    change (String.prefix ":" (String c s))
      with (match ascii_dec ":" c with
            | left _ => String.prefix "" s
            | right _ => false
            end).
    destruct (ascii_dec ":" c) as [<-|Hne].
    - rewrite H0. reflexivity.
    - symmetry. apply Ascii.eqb_neq. congruence. }
  rewrite Hp. destruct (Ascii.eqb c ":"); [reflexivity|].
  destruct (String.index 0 ":" s); reflexivity.
Qed.

Lemma append_nil b : "" +:+ b = b.
Proof. reflexivity. Qed.

Lemma append_cons c a b : String c a +:+ b = String c (a +:+ b).
Proof. reflexivity. Qed.

Lemma substring_all s : String.substring 0 (String.length s) s = s.
Proof. induction s as [|c s IH]; simpl; [reflexivity|]. rewrite IH. reflexivity. Qed.

Lemma substring_prefix k rest :
  String.substring 0 (String.length k) (k +:+ rest) = k.
Proof.
  induction k as [|c k IH]; simpl.
  - destruct rest; reflexivity.
  - rewrite IH. reflexivity.
Qed.

Lemma substring_skip k rest n :
  String.substring (String.length k) n (k +:+ rest) = String.substring 0 n rest.
Proof. induction k as [|c k IH]; simpl; [reflexivity|exact IH]. Qed.

Lemma length_append a b :
  String.length (a +:+ b) = (String.length a + String.length b)%nat.
Proof. induction a as [|c a IH]; simpl; [reflexivity|]. rewrite IH. reflexivity. Qed.

Lemma substring_after k v :
  String.substring (String.length k + 1)
    (String.length (k +:+ ":" +:+ v) - (String.length k + 1)) (k +:+ ":" +:+ v)
  = v.
Proof.
  induction k as [|c k IH].
  - rewrite append_nil, append_cons, append_nil. cbn [String.length Nat.add].
    cbn [String.substring]. rewrite Nat.sub_succ, Nat.sub_0_r.
    apply substring_all.
  - rewrite append_cons. cbn [String.length Nat.add String.substring].
    rewrite Nat.sub_succ. exact IH.
Qed.

(** The first colon of a string that holds one. *)
Lemma split_at_colon k v :
  Contains k ":" = false ->
  Contains (k +:+ ":" +:+ v) ":" = true
  /\ SplitN2 (k +:+ ":" +:+ v) ":" = [k; v].
Proof.
  intros Hk.
  assert (Hi : String.index 0 ":" (k +:+ ":" +:+ v) = Some (String.length k)).
  { unfold Contains in Hk. induction k as [|c k IH].
    - rewrite append_nil, append_cons, index_colon_cons. reflexivity.
    - rewrite append_cons. cbn [String.length]. rewrite index_colon_cons in *.
      destruct (Ascii.eqb c ":"); [discriminate|].
      destruct (String.index 0 ":" k) eqn:E; [discriminate|].
      rewrite IH by reflexivity. reflexivity. }
  unfold Contains, SplitN2. rewrite Hi. split; [reflexivity|].
  rewrite substring_prefix. change (String.length ":") with 1%nat.
  rewrite substring_after. reflexivity.
Qed.

Lemma colon_found s :
  Contains s ":" = true ->
  exists k v, s = k +:+ ":" +:+ v /\ Contains k ":" = false.
Proof.
  unfold Contains. induction s as [|c s IH].
  - discriminate.
  - rewrite index_colon_cons. destruct (Ascii.eqb_spec c ":") as [->|Hc].
    + intros _. exists "", s. split; reflexivity.
    + destruct (String.index 0 ":" s) eqn:E; [|discriminate].
      intros _. destruct (IH eq_refl) as (k & v & -> & Hk).
      exists (String c k), v. split; [reflexivity|].
      rewrite index_colon_cons. apply Ascii.eqb_neq in Hc. rewrite Hc.
      destruct (String.index 0 ":" k); [discriminate|reflexivity].
Qed.

(** What [parseHeaders] makes of one header. *)
Lemma parseLoop_step h rest hds :
  parseLoop (h :: rest) hds
  = if Contains h ":" then
      match SplitN2 h ":" with
      | part0 :: part1 :: _ =>
          parseLoop rest
            (hds ++ [ {| Core.key := TrimSpace part0;
                         Core.value := TrimSpace part1 |} ])
      | _ => Panic
      end
    else Error ("invalid header: " +:+ h).
Proof. cbn [parseLoop]. destruct (Contains h ":"); reflexivity. Qed.

Lemma parseLoop_spec hs : forall hds,
  match parseLoop hs hds with
  | Ok out =>
      exists parsed, out = hds ++ parsed
        /\ Forall2 (fun h hd =>
                      exists k v, h = k +:+ ":" +:+ v
                        /\ Contains k ":" = false
                        /\ hd = {| Core.key := TrimSpace k;
                                   Core.value := TrimSpace v |})
             hs parsed
  | Error msg =>
      exists good bad rest, hs = good ++ bad :: rest
        /\ Forall (fun h => Contains h ":" = true) good
        /\ Contains bad ":" = false
        /\ msg = "invalid header: " +:+ bad
  | Panic => False
  end.
Proof.
  induction hs as [|h hs IH]; intros hds.
  - simpl. exists []. rewrite app_nil_r. split; [reflexivity|constructor].
  - rewrite parseLoop_step. destruct (Contains h ":") eqn:Hc.
    + destruct (colon_found h Hc) as (k & v & -> & Hk).
      destruct (split_at_colon k v Hk) as [_ ->].
      specialize (IH (hds ++ [ {| Core.key := TrimSpace k;
                                  Core.value := TrimSpace v |} ])).
      destruct (parseLoop hs _) as [out|msg|].
      * destruct IH as (parsed & -> & HF).
        exists ({| Core.key := TrimSpace k; Core.value := TrimSpace v |}
                :: parsed).
        split; [rewrite <- app_assoc; reflexivity|].
        constructor; [|exact HF]. exists k, v. auto.
      * destruct IH as (good & bad & rest & -> & Hg & Hb & ->).
        exists ((k +:+ ":" +:+ v) :: good), bad, rest.
        split; [reflexivity|]. split; [constructor; assumption|]. auto.
      * exact IH.
    + exists [], h, hs. split; [reflexivity|]. split; [constructor|]. auto.
Qed.

Lemma parseHeaders_outcome (hs : list string) :
  match parseHeaders hs with
  | Ok hds => length hds = length hs
  | Error msg =>
      exists good bad rest, hs = good ++ bad :: rest
        /\ Forall (fun h => Contains h ":" = true) good
        /\ Contains bad ":" = false
        /\ msg = "invalid header: " +:+ bad
  | Panic => False
  end.
Proof.
  unfold parseHeaders. pose proof (parseLoop_spec hs []) as H.
  destruct (parseLoop hs []) as [out|msg|]; [|exact H|exact H].
  destruct H as (parsed & -> & HF). symmetry. apply (Forall2_length _ _ _ HF).
Qed.

(** X17.  [parseHeaders] takes all the headers or none: it returns one
    header for each string, in order, the key being what stands before the
    first colon and the value what stands after it, both without the white
    space around them, or it fails on the first string without a colon with
    an error that names this string, whatever follows; it never panics. *)
Theorem parseHeaders_all_or_first_error (hs : list string) :
  match parseHeaders hs with
  | Ok hds =>
      Forall2 (fun h hd =>
                 exists k v, h = k +:+ ":" +:+ v
                   /\ Contains k ":" = false
                   /\ hd = {| Core.key := TrimSpace k;
                              Core.value := TrimSpace v |})
        hs hds
  | Error msg =>
      exists good bad rest, hs = good ++ bad :: rest
        /\ Forall (fun h => Contains h ":" = true) good
        /\ Contains bad ":" = false
        /\ msg = "invalid header: " +:+ bad
  | Panic => False
  end.
Proof.
  unfold parseHeaders. pose proof (parseLoop_spec hs []) as H.
  destruct (parseLoop hs []) as [out|msg|]; [|exact H|exact H].
  destruct H as (parsed & -> & HF). exact HF.
Qed.

(** The cases of [TestParseHeaders]. *)
Lemma TestParseHeaders :
  parseHeaders ["foo: bar"; "baz: spam"]
  = Ok [ {| Core.key := "foo"; Core.value := "bar" |};
         {| Core.key := "baz"; Core.value := "spam" |} ]
  /\ parseHeaders ["invalid"; "baz: spam"] = Error "invalid header: invalid".
Proof. split; vm_compute; reflexivity. Qed.

Lemma TrimSpace_space v : TrimSpace (" " +:+ v) = TrimSpace v.
Proof. reflexivity. Qed.

Lemma parseLoop_render hds : forall acc,
  Forall plain hds -> parseLoop (map render hds) acc = Ok (acc ++ hds).
Proof.
  induction hds as [|[k v] hds IH]; intros acc Hp.
  - simpl. rewrite app_nil_r. reflexivity.
  - inversion Hp as [|? ? (Hk & Tk & Tv) Hp']; subst. cbn [Core.key Core.value] in *.
    cbn [map]. rewrite parseLoop_step. unfold render at 1 2.
    cbn [Core.key Core.value].
    destruct (split_at_colon k (" " +:+ v) Hk) as [Hc Hsplit].
    change (k +:+ ": " +:+ v) with (k +:+ ":" +:+ " " +:+ v).
    rewrite Hc, Hsplit, TrimSpace_space, Tk, Tv.
    rewrite IH by exact Hp'. rewrite <- app_assoc. reflexivity.
Qed.

(** X18.  Headers written as "key: value" come back as they are: when no
    key holds a colon and no key or value has white space around it,
    [parseHeaders] of the written headers returns exactly these headers. *)
Theorem parseHeaders_render (hds : list Core.header) :
  Forall plain hds -> parseHeaders (map render hds) = Ok hds.
Proof. intros Hp. unfold parseHeaders. apply (parseLoop_render hds [] Hp). Qed.

Lemma parseHeaders_render_witness :
  parseHeaders
    (map render [ {| Core.key := "Accept"; Core.value := "application/json" |} ])
  = Ok [ {| Core.key := "Accept"; Core.value := "application/json" |} ].
Proof.
  apply parseHeaders_render. repeat constructor.
Defined.

Lemma clamp_max x : (if x <? 0 then 0 else x) = Z.max 0 x.
Proof. destruct (Z.ltb_spec x 0); lia. Qed.

(** X19.  The checks of [main] on the flags.  They let the program start
    exactly when the discovery URL and the service are not empty, the
    timeout is positive, the thresholds, negative ones read as 0, have the
    warning one at least the critical one (equal ones pass), and every
    header holds a colon; the check then runs with thresholds
    0 <= crit <= warn.  Every refusal exits with the code of UNKNOWN, and
    the checks never panic. *)
Theorem configure_checks (f : flags) :
  match configure f with
  | Configured crit warn hds =>
      discovery f <> "" /\ service f <> "" /\ 0 < timeout f
      /\ crit = Z.max 0 (critFewer f) /\ warn = Z.max 0 (warnFewer f)
      /\ 0 <= crit <= warn
      /\ parseHeaders (header f) = Ok hds
  | Usage code showHelp msg =>
      code = 3
      /\ (discovery f = "" \/ service f = "" \/ timeout f <= 0
          \/ Z.max 0 (warnFewer f) < Z.max 0 (critFewer f)
          \/ exists h, In h (header f) /\ Contains h ":" = false)
      /\ (showHelp = true <-> discovery f = "" \/ service f = "")
  | Crashed => False
  end.
Proof.
  unfold configure. rewrite !clamp_max.
  destruct (String.eqb_spec (discovery f) "") as [Hd|Hd].
  { split; [reflexivity|]. split; [auto|]. split; auto. }
  destruct (String.eqb_spec (service f) "") as [Hs|Hs].
  { split; [reflexivity|]. split; [auto|]. split; auto. }
  destruct (Z.leb_spec (timeout f) 0) as [Ht|Ht].
  { split; [reflexivity|]. split; [auto|].
    split; [discriminate|intros [H|H]; contradiction]. }
  destruct (Z.ltb_spec (Z.max 0 (warnFewer f)) (Z.max 0 (critFewer f)))
    as [Hw|Hw].
  { split; [reflexivity|]. split; [auto|].
    split; [discriminate|intros [H|H]; contradiction]. }
  pose proof (parseHeaders_outcome (header f)) as Hp.
  destruct (parseHeaders (header f)) as [hds|msg|].
  - repeat split; auto; lia.
  - split; [reflexivity|]. split.
    + destruct Hp as (good & bad & rest & E & _ & Hb & _).
      do 4 right. exists bad. split; [|exact Hb]. rewrite E.
      apply in_or_app. right. left. reflexivity.
    + split; [discriminate|intros [H|H]; contradiction].
  - exact Hp.
Qed.

End CliFacts.

(** * The parsers and the header type of the legacy script *)

Module ParserFacts.
Import Parsers.

Lemma dots_length : length (chars "...") = 3%nat.
Proof. reflexivity. Qed.

Lemma limited_short limit t :
  Z.of_nat (length t) <= limit -> LimitedParser_parse limit t = t.
Proof.
  intros H. unfold LimitedParser_parse.
  destruct (Z.gtb_spec (Z.of_nat (length t)) limit); [lia|reflexivity].
Qed.

Lemma limited_long limit t :
  0 <= limit < Z.of_nat (length t) ->
  LimitedParser_parse limit t = firstn (Z.to_nat limit) t ++ chars "..."
  /\ length (firstn (Z.to_nat limit) t) = Z.to_nat limit.
Proof.
  intros H. unfold LimitedParser_parse, upto.
  destruct (Z.gtb_spec (Z.of_nat (length t)) limit); [|lia].
  destruct (Z.ltb_spec limit 0); [lia|]. split; [reflexivity|].
  apply firstn_length_le. lia.
Qed.

Lemma limited_length limit t :
  0 <= limit -> Z.of_nat (length (LimitedParser_parse limit t)) <= limit + 3.
Proof.
  intros Hl. destruct (Z_le_gt_dec (Z.of_nat (length t)) limit) as [H|H].
  - rewrite limited_short by exact H. lia.
  - destruct (limited_long limit t) as [-> E]; [lia|].
    rewrite List.length_app, E, dots_length. lia.
Qed.

(** X20.  [LimitedParser] bounds what is printed of a body: for a limit
    that is not negative the result has at most limit + 3 characters; a
    text within the limit is returned as it is, a longer one is cut to its
    first limit characters followed by three dots; parsing the result again
    changes nothing. *)
Theorem LimitedParser_bounded (limit : Z) (t : text) :
  0 <= limit ->
  Z.of_nat (length (LimitedParser_parse limit t)) <= limit + 3
  /\ (Z.of_nat (length t) <= limit -> LimitedParser_parse limit t = t)
  /\ (limit < Z.of_nat (length t) ->
      LimitedParser_parse limit t = firstn (Z.to_nat limit) t ++ chars "...")
  /\ LimitedParser_parse limit (LimitedParser_parse limit t)
     = LimitedParser_parse limit t.
Proof.
  intros Hl. split; [apply limited_length; exact Hl|].
  split; [apply limited_short|].
  split; [intros H; apply limited_long; lia|].
  destruct (Z_le_gt_dec (Z.of_nat (length t)) limit) as [H|H].
  - rewrite (limited_short limit t H). apply limited_short. exact H.
  - destruct (limited_long limit t) as [E1 E2]; [lia|]. rewrite E1.
    destruct (limited_long limit (firstn (Z.to_nat limit) t ++ chars "..."))
      as [E3 _].
    { rewrite List.length_app, E2, dots_length. lia. }
    rewrite E3. f_equal. rewrite firstn_app, E2, Nat.sub_diag. cbn [firstn].
    rewrite app_nil_r. rewrite firstn_firstn, Nat.min_id. reflexivity.
Qed.

Lemma LimitedParser_bounded_witness :
  LimitedParser_parse 3 (chars "abcdef") = chars "abc...".
Proof.
  destruct (LimitedParser_bounded 3 (chars "abcdef")) as (_ & _ & H & _).
  - lia.
  - rewrite H; [reflexivity|]. simpl. lia.
Defined.

Lemma startswith_firstn t prefix :
  startswith t prefix = true -> firstn (length prefix) t = prefix.
Proof.
  revert t. induction prefix as [|p prefix IH]; intros t; [reflexivity|].
  destruct t as [|c t]; [discriminate|]. cbn [startswith length firstn].
  intros H. apply andb_true_iff in H as [Hc Ht]. apply N.eqb_eq in Hc.
  rewrite (IH t Ht), Hc. reflexivity.
Qed.

(** No text starts with two of the prefixes of the parsers. *)
Lemma one_prefix t p q :
  In p parsers -> In q parsers ->
  startswith t (fst p) = true -> startswith t (fst q) = true -> p = q.
Proof.
  intros Hp Hq Sp Sq.
  apply startswith_firstn in Sp. apply startswith_firstn in Sq.
  apply (f_equal (firstn 6)) in Sp. apply (f_equal (firstn 6)) in Sq.
  rewrite firstn_firstn in Sp, Sq.
  simpl in Hp, Hq.
  destruct Hp as [<-|[<-|[<-|[]]]]; destruct Hq as [<-|[<-|[<-|[]]]];
    try reflexivity; exfalso;
    change (Nat.min 6 (length (fst (chars "text/plain", LimitedParser))))
      with 6%nat in *;
    change (Nat.min 6 (length (fst (chars "text/html", HtmlParser))))
      with 6%nat in *;
    change (Nat.min 6 (length (fst (chars "application/json", JsonParser))))
      with 6%nat in *;
    rewrite Sp in Sq; discriminate Sq.
Qed.

Lemma find_unique {A} (f : A -> bool) (l1 l2 : list A) :
  Permutation l1 l2 ->
  (forall a b, In a l1 -> In b l1 -> f a = true -> f b = true -> a = b) ->
  List.find f l1 = List.find f l2.
Proof.
  intros Hp Hu. destruct (List.find f l1) as [a|] eqn:E1.
  - apply find_some in E1 as [Ha Hfa].
    destruct (List.find f l2) as [b|] eqn:E2.
    + apply find_some in E2 as [Hb Hfb]. f_equal. symmetry.
      apply Hu; auto. eapply Permutation_in; [symmetry; exact Hp|exact Hb].
    + pose proof (find_none _ _ E2 a (Permutation_in _ Hp Ha)). congruence.
  - destruct (List.find f l2) as [b|] eqn:E2; [|reflexivity].
    apply find_some in E2 as [Hb Hfb].
    pose proof (find_none _ _ E1 b
                  (Permutation_in _ (Permutation_sym Hp) Hb)). congruence.
Qed.

Section Library.

Variable lower : text -> text.
Variable J : Type.
Variable loads : text -> option J.
Variable dumps : J -> text.

Lemma parse_with_length cls t :
  Z.of_nat (length (parse_with J loads dumps cls t)) <= 1027.
Proof.
  destruct cls; cbn [parse_with].
  - pose proof (limited_length 128 t). lia.
  - unfold HtmlParser_parse. simpl. lia.
  - unfold JsonParser_parse, DefaultParser_parse. destruct (loads t) as [d|].
    + pose proof (limited_length 1024 (dumps d)). lia.
    + pose proof (limited_length 128 t). lia.
Qed.

(** X21.  [Parser.parse] prints at most 1027 characters of a body,
    whatever the content type, the body, and what [str.lower],
    [json.loads] and [json.dumps] return; the body of an HTML response is
    never printed.  No content type starts with two of the prefixes of the
    parsers, so the order in which the dict yields them does not change the
    result. *)
Theorem Parser_parse_bounded (contenttype : option text) (t : text) :
  Z.of_nat (length (Parser_parse lower J loads dumps contenttype t)) <= 1027
  /\ (forall ps, Permutation ps parsers ->
        parse_among lower J loads dumps ps contenttype t
        = Parser_parse lower J loads dumps contenttype t)
  /\ (forall ct, contenttype = Some ct ->
        startswith (lower ct) (chars "text/html") = true ->
        Parser_parse lower J loads dumps contenttype t
        = chars "html response elided")
  /\ (contenttype = None ->
      Parser_parse lower J loads dumps contenttype t
      = LimitedParser_parse 128 t).
Proof.
  split; [|split; [|split]].
  - unfold Parser_parse, parse_among. destruct contenttype as [ct|].
    + destruct (List.find _ parsers) as [[p cls]|].
      * apply parse_with_length.
      * pose proof (limited_length 128 t). unfold DefaultParser_parse. lia.
    + pose proof (limited_length 128 t). unfold DefaultParser_parse. lia.
  - intros ps Hp. unfold Parser_parse, parse_among.
    destruct contenttype as [ct|]; [|reflexivity].
    rewrite (find_unique (fun p => startswith (lower ct) (fst p)) ps parsers Hp).
    + reflexivity.
    + intros a b Ha Hb. apply one_prefix.
      * eapply Permutation_in; [exact Hp|exact Ha].
      * eapply Permutation_in; [exact Hp|exact Hb].
  - intros ct -> Hs. unfold Parser_parse, parse_among.
    destruct (List.find _ parsers) as [[p cls]|] eqn:E.
    + apply find_some in E as [Hin Hf]. cbn [fst] in Hf.
      assert (Heq : (p, cls) = (chars "text/html", HtmlParser)).
      { apply (one_prefix (lower ct)); [exact Hin| |exact Hf|exact Hs].
        right. left. reflexivity. }
      injection Heq as -> ->. reflexivity.
    + pose proof (find_none _ _ E (chars "text/html", HtmlParser)) as Hn.
      cbn [fst] in Hn. rewrite Hs in Hn. discriminate Hn.
      right. left. reflexivity.
  - intros ->. reflexivity.
Qed.

End Library.

Lemma split_colon_spec val :
  if has_colon val
  then exists name value,
         split_colon val = [name; value]
         /\ val = name ++ 58%N :: value /\ has_colon name = false
  else split_colon val = [val].
Proof.
  unfold has_colon. induction val as [|c val IH]; [reflexivity|].
  cbn [existsb split_colon]. rewrite (N.eqb_sym 58 c).
  destruct (N.eqb_spec c 58) as [->|Hc]; cbn [orb].
  - exists [], val. auto.
  - destruct (existsb (N.eqb 58) val).
    + destruct IH as (name & value & -> & -> & Hn).
      exists (c :: name), value. split; [reflexivity|]. split; [reflexivity|].
      cbn [existsb]. rewrite (N.eqb_sym 58 c).
      apply N.eqb_neq in Hc. rewrite Hc. exact Hn.
    + rewrite IH. reflexivity.
Qed.

(** X22.  [http_header] accepts exactly the values that hold a colon: it
    returns what stands before the first colon without the white space
    around it, and what stands after it without the leading white space
    only, the trailing one being kept; a value without a colon raises
    [ArgumentTypeError] with a message that quotes it, and nothing else is
    ever raised. *)
Theorem http_header_first_colon (val : text) :
  match http_header val with
  | Returned (name, value) =>
      exists k v, val = k ++ 58%N :: v /\ has_colon k = false
                  /\ name = strip k /\ value = lstrip v
  | Raised exception msg =>
      exception = "ArgumentTypeError" /\ has_colon val = false
      /\ msg = chars "invalid header format: " ++ val
  end.
Proof.
  unfold http_header. pose proof (split_colon_spec val) as H.
  destruct (has_colon val); cbn [negb].
  - destruct H as (name & value & -> & E & Hn). exists name, value. auto.
  - auto.
Qed.

Lemma dict_snoc pairs p : dict (pairs ++ [p]) = <[fst p := snd p]> (dict pairs).
Proof. unfold dict. rewrite fold_left_app. reflexivity. Qed.

Lemma dict_lookup_none pairs k :
  (forall v, ~ In (k, v) pairs) -> dict pairs !! k = None.
Proof.
  induction pairs as [|[k' v'] pairs IH] using rev_ind; intros H.
  - apply lookup_empty.
  - rewrite dict_snoc. cbn [fst snd].
    destruct (decide (k' = k)) as [->|Hne].
    + exfalso. apply (H v'). apply in_or_app. right. left. reflexivity.
    + rewrite lookup_insert_ne by exact Hne. apply IH.
      intros v Hin. apply (H v). apply in_or_app. left. exact Hin.
Qed.

Lemma dict_lookup_last before k v after :
  (forall v', ~ In (k, v') after) ->
  dict (before ++ (k, v) :: after) !! k = Some v.
Proof.
  induction after as [|[k' v'] after IH] using rev_ind; intros H.
  - change (before ++ [(k, v)]) with (before ++ [(k, v)]).
    rewrite dict_snoc. apply lookup_insert_eq.
  - rewrite app_comm_cons, app_assoc, dict_snoc. cbn [fst snd].
    destruct (decide (k' = k)) as [->|Hne].
    + exfalso. apply (H v'). apply in_or_app. right. left. reflexivity.
    + rewrite lookup_insert_ne by exact Hne. apply IH.
      intros v'' Hin. apply (H v''). apply in_or_app. left. exact Hin.
Qed.

(** X23.  The headers the legacy script hands to [requests.get] for a
    probe: every header of the command line goes in with the value given
    last for its name, the user agent of the script goes in unless the
    command line gives a header named User-Agent, which then replaces it,
    and no other name goes in. *)
Theorem request_headers_lookup (pairs : list (text * text)) (k : text) :
  (forall before v after,
     pairs = before ++ (k, v) :: after ->
     (forall v', ~ In (k, v') after) ->
     request_headers (dict pairs) !! k = Some v)
  /\ ((forall v, ~ In (k, v) pairs) ->
      request_headers (dict pairs) !! k
      = if decide (k = chars "User-Agent") then Some useragent else None).
Proof.
  unfold request_headers. split.
  - intros before v after -> Hlast.
    apply lookup_union_Some_l. apply dict_lookup_last. exact Hlast.
  - intros Hnone. rewrite lookup_union_r by (apply dict_lookup_none; exact Hnone).
    destruct (decide (k = chars "User-Agent")) as [->|Hne].
    + apply lookup_singleton_eq.
    + apply lookup_singleton_ne. congruence.
Qed.

Lemma request_headers_lookup_witness :
  request_headers (dict [(chars "User-Agent", chars "curl");
                         (chars "Accept", chars "text/plain")])
    !! chars "User-Agent"
  = Some (chars "curl").
Proof.
  destruct (request_headers_lookup
              [(chars "User-Agent", chars "curl");
               (chars "Accept", chars "text/plain")] (chars "User-Agent"))
    as [H _].
  apply (H [] (chars "curl") [(chars "Accept", chars "text/plain")]).
  - reflexivity.
  - intros v' [E|[]]. discriminate E.
Defined.

End ParserFacts.
